(** * exam_generator: a shallow embedding of [exam_generator.py]

    The development follows the Python module class by class:
    [Question], [QuestionBank], [ExamGenerator].  Python objects live in a
    store and are handled through references; methods are computations in a
    state-and-exception monad.  The two calls into Python's [random] module
    are taken through the interface [RandomSource]; a reference
    implementation over a tape of draws is given in [Tape]. *)

From Stdlib Require Import Ascii String.
From stdpp Require Import base option list gmap strings pretty.

(** ** Exceptions and outcomes *)

(** The [errno] of a failed [open]. [ENOENT] is Python's
    [FileNotFoundError]; the others are further subclasses of [OSError]. *)
Inductive errno := ENOENT | EACCES | EISDIR.

(** The exceptions the program, and the library calls it makes, can raise. *)
Inductive exn :=
  | ValueError (msg : string)
  | KeyError (key : string)
  | TypeError (msg : string)
  | IndexError (msg : string)
  | OSError (e : errno) (filename : string)
  | YAMLError.

(** A call returns a value, raises, or is [Stuck]: it dereferenced a
    reference that denotes no object of the store, which no Python
    execution does. *)
Inductive outcome (A : Type) :=
  | Ok (a : A)
  | Raise (e : exn)
  | Stuck.
Arguments Ok {A} a.
Arguments Raise {A} e.
Arguments Stuck {A}.

(** ** The monad: state [S] threaded through, also past a [raise] *)

Definition M (S A : Type) : Type := S → outcome A * S.

Global Instance M_ret {S} : MRet (M S) := λ A a s, (Ok a, s).
Global Instance M_bind {S} : MBind (M S) := λ A B f m s,
  match m s with
  | (Ok a, s') => f a s'
  | (Raise e, s') => (Raise e, s')
  | (Stuck, s') => (Stuck, s')
  end.

Definition raise {S A} (e : exn) : M S A := λ s, (Raise e, s).
Definition get_state {S} : M S S := λ s, (Ok s, s).
Definition modify {S} (f : S → S) : M S () := λ s, (Ok (), f s).

(** [for x in xs: acc = body(acc, x)] *)
Fixpoint for_each {S A B} (xs : list A) (body : B → A → M S B) (acc : B) : M S B :=
  match xs with
  | [] => mret acc
  | x :: xs' => acc' ← body acc x; for_each xs' body acc'
  end.

(** [[f(x) for x in xs]] *)
Fixpoint comprehension {S A B} (f : A → M S B) (xs : list A) : M S (list B) :=
  match xs with
  | [] => mret []
  | x :: xs' => y ← f x; ys ← comprehension f xs'; mret (y :: ys)
  end.

(** [l[i]] for a list and a non-negative index *)
Definition getitem {S A} (l : list A) (i : nat) : M S A :=
  match l !! i with
  | Some x => mret x
  | None => raise (IndexError "list index out of range")
  end.

(** [d[key]] for a dict: [v] is the value stored under [key], if any *)
Definition getkey {S A} (key : string) (v : option A) : M S A :=
  match v with
  | Some x => mret x
  | None => raise (KeyError key)
  end.

(** ** Values loaded from YAML *)

(** The types of the values [yaml.safe_load] builds, [dict] apart. *)
Inductive pytype :=
  | NoneType | py_bool | py_int | py_float | py_str | py_bytes
  | py_list | py_tuple | py_set | py_date | py_datetime.

(** What the program receives where it subscripts a loaded value with a
    key: a [dict], whose keys may be absent, or a value of another type
    (an empty document loads as [None], a sequence as a [list], a scalar
    as a [str], an [int], ...). *)
Inductive parsed (D : Type) :=
  | Dict (d : D)
  | NotDict (ty : pytype).
Arguments Dict {D} d.
Arguments NotDict {D} ty.

(** The message of the [TypeError] that [v[key]] raises for a [str] key
    and a [v] of type [ty] (CPython 3.11). *)
Definition not_subscriptable (ty : pytype) : string :=
  match ty with
  | NoneType => "'NoneType' object is not subscriptable"
  | py_bool => "'bool' object is not subscriptable"
  | py_int => "'int' object is not subscriptable"
  | py_float => "'float' object is not subscriptable"
  | py_str => "string indices must be integers, not 'str'"
  | py_bytes => "byte indices must be integers or slices, not str"
  | py_list => "list indices must be integers or slices, not str"
  | py_tuple => "tuple indices must be integers or slices, not str"
  | py_set => "'set' object is not subscriptable"
  | py_date => "'datetime.date' object is not subscriptable"
  | py_datetime => "'datetime.datetime' object is not subscriptable"
  end.

(** ** Strings *)

Definition nl : string := String "010"%char "".

(** [str(n)] for a Python [int]. *)
Definition str (n : Z) : string := pretty n.

(** [s.startswith(p)] *)
Fixpoint startswith (p s : string) : bool :=
  match p, s with
  | EmptyString, _ => true
  | String a p', String b s' => if decide (a = b) then startswith p' s' else false
  | String _ _, EmptyString => false
  end.

(** [p in s], for strings *)
Fixpoint contains (p s : string) : bool :=
  startswith p s ||
  match s with
  | EmptyString => false
  | String _ s' => contains p s'
  end.

(** [c in s], for a character *)
Fixpoint char_in (c : ascii) (s : string) : bool :=
  match s with
  | EmptyString => false
  | String b s' => bool_decide (c = b) || char_in c s'
  end.

(** Every character of [s] satisfies [P]. *)
Fixpoint all_chars (P : ascii → bool) (s : string) : bool :=
  match s with
  | EmptyString => true
  | String c s' => P c && all_chars P s'
  end.

(** [s.find(sub)]: the position of the first occurrence, if any *)
Fixpoint find (sub s : string) : option nat :=
  if startswith sub s then Some 0
  else match s with
       | EmptyString => None
       | String _ s' => S <$> find sub s'
       end.

(** [s.replace(old, new)] for a non-empty [old]: scan left to right; at a
    position where [old] starts, emit [new] and skip [len(old)] characters
    ([skip] counts the characters of the current match still to pass);
    elsewhere copy the character. *)
Fixpoint replace_from (old new : string) (skip : nat) (s : string) : string :=
  match s with
  | EmptyString => EmptyString
  | String c s' =>
      match skip with
      | S k => replace_from old new k s'
      | O =>
          if startswith old s
          then new +:+ replace_from old new (String.length old - 1) s'
          else String c (replace_from old new 0 s')
      end
  end.

Definition str_replace (old new s : string) : string := replace_from old new 0 s.

(** [sep.join(parts)] *)
Fixpoint join (sep : string) (parts : list string) : string :=
  match parts with
  | [] => ""
  | [p] => p
  | p :: ps => p +:+ sep +:+ join sep ps
  end.

(** [s.split(sep)] for a non-empty [sep], with the same scan as
    [replace_from]: the first piece and the pieces after it. *)
Fixpoint split_from (sep : string) (skip : nat) (s : string) : string * list string :=
  match s with
  | EmptyString => (EmptyString, [])
  | String c s' =>
      match skip with
      | S k => split_from sep k s'
      | O =>
          if startswith sep s
          then let '(p, ps) := split_from sep (String.length sep - 1) s' in
               (EmptyString, p :: ps)
          else let '(p, ps) := split_from sep 0 s' in
               (String c p, ps)
      end
  end.

Definition str_split (sep s : string) : list string :=
  let '(p, ps) := split_from sep 0 s in p :: ps.

(** [parts] are the pieces of a text between the occurrences of [sep]
    that a left-to-right scan meets: in each piece followed by [sep], the
    first occurrence of [sep] is the one after the piece, and the last
    piece has none. *)
Fixpoint separated_by (sep : string) (parts : list string) : Prop :=
  match parts with
  | [] => True
  | [p] => find sep p = None
  | p :: ps => find sep (p +:+ sep) = Some (String.length p) ∧ separated_by sep ps
  end.

(** ** The [random] module *)

(** The program calls [random.shuffle] and [random.sample].  Their
    documented contracts: [shuffle] permutes the list it is given; [sample]
    picks [k] elements at pairwise distinct positions of the population.
    [random_sample_positions n k] yields those positions for a population
    of size [n]. *)
Class RandomSource (rng : Type) := {
  random_shuffle : ∀ {A}, list A → rng → list A * rng;
  random_sample_positions : nat → nat → rng → list nat * rng;
  random_shuffle_perm : ∀ A (x : list A) g, (random_shuffle x g).1 ≡ₚ x;
  random_sample_positions_spec : ∀ n k g,
    k ≤ n →
    length (random_sample_positions n k g).1 = k
    ∧ NoDup (random_sample_positions n k g).1
    ∧ Forall (λ i, i < n) (random_sample_positions n k g).1;
}.

Definition sample_negative_msg : string :=
  "Sample larger than population or is negative".

(** [random.sample(population, k)]: [ValueError] unless
    [0 <= k <= len(population)]; otherwise the elements at the chosen
    positions, in the order chosen. *)
Definition random_sample `{RandomSource rng} {A} (population : list A) (k : Z)
    : M rng (list A) := λ g,
  if decide (0 ≤ k ≤ Z.of_nat (length population))%Z then
    let '(ps, g') := random_sample_positions (length population) (Z.to_nat k) g in
    comprehension (getitem population) ps g'
  else (Raise (ValueError sample_negative_msg), g).

(** ** class Question *)

(** [correct_answers] is a [str] or a [list] of [str];
    [isinstance(_, list)] tells them apart. *)
Inductive answers :=
  | Single (answer : string)
  | Multi (listed : list string).

Module Question.

(** The [dict] a question record of a bank file parses to: each key may
    be absent; a value that is present has the type the file format
    declares for it. *)
Record dict := mk_dict {
  d_text : option string;
  d_points : option Z;
  d_type : option string;
  d_choices : option (list string);
  d_correct_answers : option answers;
  d_id : option string;
}.

Record t := mk {
  text : string;
  points : Z;
  type : string;
  choices : list string;
  correct_answers : answers;
  id : string;
  _shuffled_indices : option (list nat);
}.

Definition set_shuffled_indices (v : option (list nat)) (self : t) : t :=
  {| text := text self; points := points self; type := type self;
     choices := choices self; correct_answers := correct_answers self;
     id := id self; _shuffled_indices := v |}.

Definition set_type (v : string) (self : t) : t :=
  {| text := text self; points := points self; type := v;
     choices := choices self; correct_answers := correct_answers self;
     id := id self; _shuffled_indices := _shuffled_indices self |}.

(** The element of the question list that [Question] is called on. *)
Definition record : Type := parsed dict.

(** On a [data] that is no [dict] the first statement, [data['text']],
    raises [TypeError]. *)
Definition __init__ {S} (data : record) : M S t :=
  match data with
  | NotDict ty => raise (TypeError (not_subscriptable ty))
  | Dict data =>
      text ← getkey "text" (d_text data);
      let points := default 1%Z (d_points data) in
      type ← getkey "type" (d_type data);
      choices ← getkey "choices" (d_choices data);
      correct_answers ← getkey "correct_answers" (d_correct_answers data);
      let id := default "" (d_id data) in
      mret {| text := text; points := points; type := type; choices := choices;
              correct_answers := correct_answers; id := id;
              _shuffled_indices := None |}
  end.

Definition correctchoice (choice : string) : string :=
  "\correctchoice " +:+ choice +:+ nl.
Definition plainchoice (choice : string) : string :=
  "\choice " +:+ choice +:+ nl.

(** The body of the loop of [to_latex]: the line appended for [choice].
    The [match] is the test [isinstance(correct, list)]. *)
Definition choice_line (correct : answers) (choice : string) : string :=
  match correct with
  | Multi listed =>
      if bool_decide (choice ∈ listed) then correctchoice choice
      else plainchoice choice
  | Single answer =>
      if bool_decide (choice = answer) then correctchoice choice
      else plainchoice choice
  end.

Section methods.
Context `{RandomSource rng}.

(** A method runs on [self] and the state of [random]. *)
Definition shuffle_choices : M (t * rng) () := λ '(self, g),
  let n := length (choices self) in
  let '(indices, g') := random_shuffle (seq 0 n) g in
  (Ok (), (set_shuffled_indices (Some indices) self, g')).

(** The [match] on [correct_answers] is the test
    [isinstance(self.correct_answers, list)]. *)
Definition get_shuffled_choices : M (t * rng) (list string * answers) :=
  '(self, _) ← get_state;
  (if _shuffled_indices self is None then shuffle_choices else mret ());;
  '(self, _) ← get_state;
  match _shuffled_indices self with
  | None => raise (TypeError "'NoneType' object is not iterable")
  | Some indices =>
      shuffled_choices ← comprehension (getitem (choices self)) indices;
      match correct_answers self with
      | Multi listed =>
          let shuffled_correct :=
            foldl (λ acc choice,
                     if bool_decide (choice ∈ listed) then acc ++ [choice]
                     else acc) [] shuffled_choices in
          mret (shuffled_choices, Multi shuffled_correct)
      | Single _ => mret (shuffled_choices, correct_answers self)
      end
  end.

Definition to_latex (shuffle : bool) : M (t * rng) string :=
  '(self, _) ← get_state;
  let latex := "\question[" +:+ str (points self) +:+ "] " +:+ text self +:+ nl in
  let latex := latex +:+ "\begin{choices}" +:+ nl in
  '(choices, correct) ←
    (if shuffle then get_shuffled_choices
     else mret (choices self, correct_answers self));
  let latex := foldl (λ latex choice, latex +:+ choice_line correct choice)
                     latex choices in
  mret (latex +:+ "\end{choices}" +:+ nl).
End methods.
End Question.

(** ** The store *)

(** A reference to a [Question] object: its position in the store. *)
Definition loc := nat.

Record world (rng : Type) := mk_world {
  w_random : rng;                       (* the state of the [random] module *)
  w_objects : list Question.t;          (* the [Question] objects created so far *)
  w_files : string → errno + string;    (* [open(path).read()]: an error or the text *)
  w_stdout : list string;               (* what [print] has written *)
}.
Arguments mk_world {rng}.
Arguments w_random {rng}.
Arguments w_objects {rng}.
Arguments w_files {rng}.
Arguments w_stdout {rng}.

Section store.
Context {rng : Type}.

Definition set_random (g : rng) (w : world rng) : world rng :=
  mk_world g (w_objects w) (w_files w) (w_stdout w).
Definition set_objects (h : list Question.t) (w : world rng) : world rng :=
  mk_world (w_random w) h (w_files w) (w_stdout w).

(** Run a call into [random]. *)
Definition with_random {A} (m : M rng A) : M (world rng) A := λ w,
  let '(r, g') := m (w_random w) in (r, set_random g' w).

(** Create an object; the result is the reference to it. *)
Definition new (obj : Question.t) : M (world rng) loc := λ w,
  (Ok (length (w_objects w)), set_objects (w_objects w ++ [obj]) w).

(** Call a method on the object [l] refers to. *)
Definition call {A} (l : loc) (method : M (Question.t * rng) A) : M (world rng) A := λ w,
  match w_objects w !! l with
  | None => (Stuck, w)
  | Some self =>
      let '(r, (self', g')) := method (self, w_random w) in
      (r, set_random g' (set_objects (<[l := self']> (w_objects w)) w))
  end.

(** [Question(data)]: run [__init__], and the object is in the store. *)
Definition construct (data : Question.record) : M (world rng) loc :=
  obj ← Question.__init__ data; new obj.

(** [open(path, 'r').read()] *)
Definition read_file (path : string) : M (world rng) string := λ w,
  match w_files w path with
  | inr contents => (Ok contents, w)
  | inl e => (Raise (OSError e path), w)
  end.

Definition print (line : string) : M (world rng) () :=
  modify (λ w, mk_world (w_random w) (w_objects w) (w_files w) (w_stdout w ++ [line])).

(** [try: body except FileNotFoundError: handler] *)
Definition try_except_FileNotFoundError {A} (body handler : M (world rng) A)
    : M (world rng) A := λ w,
  match body w with
  | (Raise (OSError ENOENT _), w') => handler w'
  | r => r
  end.
End store.

(** ** class QuestionBank *)

Module QuestionBank.

(** The [dict] a bank file parses to: each key may be absent; a value
    that is present has the type the file format declares for it. *)
Record dict := mk_dict {
  d_name : option string;
  d_questions : option (list Question.record);
}.

Record t := mk {
  name : string;
  questions : list loc;
}.

Definition capacity_msg (n : Z) (size : nat) : string :=
  "Requested " +:+ str n +:+ " questions but bank only has " +:+ str (Z.of_nat size).

Section methods.
Context `{RandomSource rng}.
(** [yaml.safe_load] on the text of a bank file: [None] stands for
    [yaml.YAMLError]; a text that parses loads as a [dict] or as a value
    of another type. *)
Context (yaml_safe_load : string → option (parsed dict)).

(** On a [data] that is no [dict], [data['name']] raises [TypeError]. *)
Definition __init__ (yaml_file : string) : M (world rng) t :=
  f ← read_file yaml_file;
  data ← (if yaml_safe_load f is Some data then mret data else raise YAMLError);
  match data with
  | NotDict ty => raise (TypeError (not_subscriptable ty))
  | Dict data =>
      name ← getkey "name" (d_name data);
      records ← getkey "questions" (d_questions data);
      questions ← comprehension construct records;
      mret {| name := name; questions := questions |}
  end.

Definition sample_questions (self : t) (n : Z) : M (world rng) (list loc) :=
  if decide (n > Z.of_nat (length (questions self)))%Z then
    raise (ValueError (capacity_msg n (length (questions self))))
  else with_random (random_sample (questions self) n).
End methods.
End QuestionBank.

(** ** class ExamGenerator *)

Module ExamGenerator.

Record t := mk {
  banks : gmap string QuestionBank.t;
  preamble_file : option string;
}.

Definition placeholder : string := "%%VERSION%%".

Definition not_found_msg (bank_name : string) : string :=
  "Question bank '" +:+ bank_name +:+ "' not found".

Definition warning_msg (preamble_file : string) : string :=
  "Warning: Preamble file " +:+ preamble_file +:+ " not found. Using default preamble.".

Definition default_preamble (version : Z) : string :=
  "\documentclass[addpoints,12pt,answers]{exam}" +:+ nl +:+
  "\usepackage{ttfamily}" +:+ nl +:+
  "\usepackage{textcomp}" +:+ nl +:+
  "\pagestyle{headandfoot}" +:+ nl +:+
  "\runningheader{CS Course}{Exam Version " +:+ str version +:+ "}{\today}" +:+ nl +:+
  "\runningfooter{Page \thepage\ of \numpages}{}{}" +:+ nl +:+
  nl +:+
  "\begin{document}" +:+ nl +:+
  "\begin{center}" +:+ nl +:+
  "\textbf{Exam}\\" +:+ nl +:+
  "Version " +:+ str version +:+ "\\" +:+ nl +:+
  "\today" +:+ nl +:+
  "\end{center}" +:+ nl +:+
  nl.

(** The truth value of [self.preamble_file]: [None] and the empty string
    are false. *)
Definition truthy (preamble_file : option string) : option string :=
  match preamble_file with
  | Some "" => None
  | other => other
  end.

Definition __init__ (preamble_file : option string) : t :=
  {| banks := ∅; preamble_file := preamble_file |}.

Section methods.
Context `{RandomSource rng}.
Context (yaml_safe_load : string → option (parsed QuestionBank.dict)).

Definition add_bank (self : t) (yaml_file : string) : M (world rng) t :=
  bank ← QuestionBank.__init__ yaml_safe_load yaml_file;
  mret {| banks := <[QuestionBank.name bank := bank]> (banks self);
          preamble_file := preamble_file self |}.

Definition _generate_preamble (self : t) (version : Z) : M (world rng) string :=
  match truthy (preamble_file self) with
  | Some path =>
      try_except_FileNotFoundError
        (preamble ← read_file path;
         let preamble := str_replace placeholder (str version) preamble in
         mret preamble)
        (print (warning_msg path);;
         mret (default_preamble version))
  | None => mret (default_preamble version)
  end.

(** The body of the loop over [bank_selections.items()]. *)
Definition sample_selection (self : t) (all_questions : list loc)
    (selection : string * Z) : M (world rng) (list loc) :=
  let '(bank_name, num_questions) := selection in
  match banks self !! bank_name with
  | None => raise (ValueError (not_found_msg bank_name))
  | Some bank =>
      questions ← QuestionBank.sample_questions bank num_questions;
      mret (all_questions ++ questions)
  end.

(** The body of the loop over [all_questions]. *)
Definition render_question (latex : string) (question : loc)
    : M (world rng) string :=
  rendered ← call question (Question.to_latex true);
  mret (latex +:+ rendered +:+ nl).

(** [bank_selections] is a [dict]: its items, in insertion order. *)
Definition generate_exam (self : t) (bank_selections : list (string * Z))
    (version : Z) : M (world rng) string :=
  latex ← _generate_preamble self version;
  all_questions ← for_each bank_selections (sample_selection self) [];
  let latex := latex +:+ "\begin{questions}" +:+ nl in
  latex ← for_each all_questions render_question latex;
  let latex := latex +:+ "\end{questions}" +:+ nl in
  let latex := latex +:+ "\end{document}" in
  mret latex.
End methods.
End ExamGenerator.

(** ** The shuffle cache of a [Question] as a state machine *)

Inductive cache_state := UNSHUFFLED | SHUFFLED.

Definition cache_state_of (q : Question.t) : cache_state :=
  if Question._shuffled_indices q is Some _ then SHUFFLED else UNSHUFFLED.

(** The states a [Question] object can be in: it has no cached permutation,
    or one of the index range of its choices. [__init__] establishes this
    and every method keeps it. *)
Definition cache_valid (q : Question.t) : Prop :=
  match Question._shuffled_indices q with
  | None => True
  | Some indices => indices ≡ₚ seq 0 (length (Question.choices q))
  end.

(** What can happen to one [Question] instance: a call of one of its
    methods, or code elsewhere using [random] in between. *)
Inductive event (rng : Type) :=
  | call_shuffle_choices
  | call_get_shuffled_choices
  | call_to_latex (shuffle : bool)
  | random_used_elsewhere (g : rng).
Arguments call_shuffle_choices {rng}.
Arguments call_get_shuffled_choices {rng}.
Arguments call_to_latex {rng} shuffle.
Arguments random_used_elsewhere {rng} g.

Definition is_direct_shuffle {rng} (e : event rng) : bool :=
  match e with call_shuffle_choices => true | _ => false end.

Section events.
Context `{RandomSource rng}.

Definition happen (e : event rng) : M (Question.t * rng) () :=
  match e with
  | call_shuffle_choices => Question.shuffle_choices
  | call_get_shuffled_choices => Question.get_shuffled_choices;; mret ()
  | call_to_latex shuffle => Question.to_latex shuffle;; mret ()
  | random_used_elsewhere g => modify (λ '(self, _), (self, g))
  end.

Definition run (es : list (event rng)) : M (Question.t * rng) () :=
  for_each es (λ _ e, happen e) ().
End events.

(** ** Vocabulary of the properties *)

(** [[cs[i] for i in indices]], when every index is in range. *)
Definition reordered (cs : list string) (indices : list nat) : list string :=
  (λ i, default "" (cs !! i)) <$> indices.

(** The correct answers as [get_shuffled_choices] returns them next to the
    reordered choices [cs]. *)
Definition expressed (correct : answers) (cs : list string) : answers :=
  match correct with
  | Multi listed => Multi (filter (λ c, c ∈ listed) cs)
  | Single answer => Single answer
  end.

(** The text [to_latex] builds around the choice lines. *)
Definition latex_header (q : Question.t) : string :=
  "\question[" +:+ str (Question.points q) +:+ "] " +:+ Question.text q +:+ nl
  +:+ "\begin{choices}" +:+ nl.
Definition latex_footer : string := "\end{choices}" +:+ nl.

(** The lines of a block, one after the other. *)
Definition lines (ls : list string) : string := foldr String.append "" ls.

(** The lines a text is read as: what stands before each line break, and
    what stands after the last one if anything does. *)
Fixpoint text_lines (s : string) : list string :=
  match s with
  | EmptyString => []
  | String c s' =>
      if decide (c = "010"%char) then EmptyString :: text_lines s'
      else match text_lines s' with
           | [] => [String c EmptyString]
           | l :: ls => String c l :: ls
           end
  end.

(** A text without a line break. *)
Definition single_line (s : string) : Prop := char_in "010"%char s = false.

(** The ends of lines put back: the text of which [ls] are the lines. *)
Definition unlines (ls : list string) : string :=
  lines ((λ line, line +:+ nl) <$> ls).

(** How a line of a choices block reads to the [exam] document class: the
    line of a correct choice starts with [\correctchoice], the line of
    any other choice with [\choice]; the text of the choice follows. *)
Definition marks_correct (line : string) : bool :=
  startswith "\correctchoice " line.
Definition marks_incorrect (line : string) : bool :=
  startswith "\choice " line.

(** The error categories of the program, by the [raise] that produces
    them: [sample_questions] raises its [ValueError] for a request beyond
    the size of the bank, [generate_exam] raises its [ValueError] for a
    bank name it does not know, and loading a bank fails on a file that
    cannot be opened ([OSError]), cannot be parsed ([yaml.YAMLError]),
    lacks a key ([KeyError]) or holds, where a [dict] is subscripted, a
    value that has no keys at all (the [TypeError] of the subscript). *)
Definition CapacityError (e : exn) : Prop :=
  ∃ n size, e = ValueError (QuestionBank.capacity_msg n size).

Definition BankNotFoundError (e : exn) : Prop :=
  ∃ bank_name, e = ValueError (ExamGenerator.not_found_msg bank_name).

Definition DataFormatError (e : exn) : Prop :=
  match e with
  | KeyError _ | YAMLError | OSError _ _ => True
  | TypeError msg => ∃ ty, msg = not_subscriptable ty
  | _ => False
  end.

(** A selections entry that [generate_exam] can serve: its bank is loaded
    and the count is within the size of the bank. *)
Definition servable (self : ExamGenerator.t) (selection : string * Z) : Prop :=
  ∃ bank, ExamGenerator.banks self !! selection.1 = Some bank
          ∧ (0 ≤ selection.2 ≤ Z.of_nat (length (QuestionBank.questions bank)))%Z.

(** A question record lacks one of the keys [Question.__init__]
    subscripts; a record that is no [dict] has no key. *)
Definition lacks_required_key (q : Question.record) : Prop :=
  match q with
  | Dict q =>
      Question.d_text q = None ∨ Question.d_type q = None
      ∨ Question.d_choices q = None ∨ Question.d_correct_answers q = None
  | NotDict _ => True
  end.

Global Instance lacks_required_key_dec (q : Question.record) :
  Decision (lacks_required_key q).
Proof. destruct q; apply _. Defined.

(** ** Sample data *)

Module Sample.

Definition q_abc : Question.t :=
Question.mk "Pick one." 2 "multiple_choice" ["A"; "B"; "C"] (Single "B") "q1" None.

Definition q_ab : Question.t :=
Question.mk "Pick one." 1 "multiple_choice" ["A"; "B"] (Single "A") "q2" None.

(** Tagged [multiple_choice], with a list of correct answers and a
  repeated choice. *)
Definition q_multi : Question.t :=
Question.mk "Pick all." 1 "multiple_choice" ["A"; "B"; "C"; "A"]
            (Multi ["A"; "Z"]) "q3" None.

(** The second choice holds a line break, and after it a text that
  reads as the line of a correct choice. *)
Definition q_two_lines : Question.t :=
Question.mk "Pick one." 1 "multiple_choice"
            ["B"; "A" +:+ nl +:+ "\correctchoice B"] (Single "B") "q4" None.

Definition tape : list nat := [1; 0].

Definition later_events : list (event (list nat)) :=
[call_to_latex true; random_used_elsewhere [2; 2]; call_get_shuffled_choices;
 call_to_latex false].

Definition template : string := "Exam %%VERSION%% (v%%VERSION%%)".

(** A preamble template, a bank file that has a name and no questions,
  and an empty bank file. *)
Definition files (path : string) : errno + string :=
if decide (path = "preamble.tex") then inr template
else if decide (path = "midterm.yaml") then inr "name: midterm"
else if decide (path = "empty.yaml") then inr ""
else inl ENOENT.

(** An empty text loads as [None]. *)
Definition parse (f : string) : option (parsed QuestionBank.dict) :=
if decide (f = "name: midterm")
then Some (Dict (QuestionBank.mk_dict (Some "midterm") None))
else if decide (f = "") then Some (NotDict NoneType)
else None.

Definition w0 : world (list nat) :=
mk_world [7; 2; 0] [q_abc; q_ab; q_multi] files [].

Definition midterm : QuestionBank.t := QuestionBank.mk "midterm" [0; 1; 2].

Definition generator : ExamGenerator.t :=
ExamGenerator.mk {["midterm" := midterm]} (Some "preamble.tex").

End Sample.

(** ** A random source: CPython's algorithms over a tape of draws *)

Module Tape.

(** The draws still to come; [randbelow n] takes the next one, reduced
    below [n]. An exhausted tape draws [0]. *)
Definition rng := list nat.

Definition randbelow (n : nat) (g : rng) : nat * rng :=
  match g with
  | [] => (0, [])
  | d :: g' => (d `mod` n, g')
  end.

(** [x[i], x[j] = x[j], x[i]] *)
Definition swap {A} (x : list A) (i j : nat) : list A :=
  match x !! i, x !! j with
  | Some a, Some b => <[j := a]> (<[i := b]> x)
  | _, _ => x
  end.

(** [for i in reversed(range(1, i + 1)): j = randbelow(i + 1); swap] *)
Fixpoint shuffle_loop {A} (i : nat) (x : list A) (g : rng) : list A * rng :=
  match i with
  | 0 => (x, g)
  | S i' =>
      let '(j, g') := randbelow (i + 1) g in
      shuffle_loop i' (swap x i j) g'
  end.

Definition shuffle {A} (x : list A) (g : rng) : list A * rng :=
  shuffle_loop (length x - 1) x g.

(** The selection loop of [random.sample] on the pool of positions:
    [live] positions are still unselected, at [pool[0 : live]];
    [j = randbelow(live); result[i] = pool[j]; pool[j] = pool[live - 1]]. *)
Fixpoint sample_loop (k live : nat) (pool : list nat) (g : rng) : list nat * rng :=
  match k with
  | 0 => ([], g)
  | S k' =>
      let '(j, g') := randbelow live g in
      let picked := default 0 (pool !! j) in
      let pool' := <[j := default 0 (pool !! (live - 1))]> pool in
      let '(rest, g'') := sample_loop k' (live - 1) pool' g' in
      (picked :: rest, g'')
  end.

Definition sample_positions (n k : nat) (g : rng) : list nat * rng :=
  sample_loop k n (seq 0 n) g.

End Tape.

(** ** The command line driver *)

Module Main.

(** What [parser.parse_args()] returns. *)
Record args := mk_args {
  config : string;
  versions : Z;
  output_dir : string;
  preamble : option string;
  no_shuffle : bool;
}.

(** The [dict] the run configuration parses to. *)
Record config_dict := mk_config {
  c_question_banks : option (list string);
  c_selections : option (list (string * Z));
}.

(** The calls into the operating system that write: making the output
    directory, joining a directory and a file name, opening a file for
    writing, and what the files are once a text is written. Each is taken
    as it comes: [mkdir_exist_ok] and [open_w] say which exception, if
    any, the call raises in a world. *)
Record os_calls (rng : Type) := mk_os {
  mkdir_exist_ok : string → world rng → option exn;
  joinpath : string → string → string;
  open_w : string → world rng → option exn;
  after_write : string → string → (string → errno + string) → (string → errno + string);
}.
Arguments mkdir_exist_ok {rng}.
Arguments joinpath {rng}.
Arguments open_w {rng}.
Arguments after_write {rng}.

(** [range(start, stop)] *)
Definition range (start stop : Z) : list Z :=
  (λ i, start + Z.of_nat i)%Z <$> seq 0 (Z.to_nat (stop - start)).

Definition output_name (version : Z) : string :=
  "exam_v" +:+ str version +:+ ".tex".

Section driver.
Context `{RandomSource rng}.
Context (yaml_safe_load : string → option (parsed QuestionBank.dict)).
Context (yaml_safe_load_config : string → option (parsed config_dict)).
Context (os : os_calls rng).

(** The driver runs in the world and the list of the files it has
    written, with their text, in the order of writing. *)
Definition process : Type := world rng * list (string * string).

Definition in_world {A} (m : M (world rng) A) : M process A := λ '(w, written),
  let '(r, w') := m w in (r, (w', written)).

(** [path.mkdir(exist_ok=True)] *)
Definition mkdir (path : string) : M process () := λ '(w, written),
  match mkdir_exist_ok os path w with
  | Some e => (Raise e, (w, written))
  | None => (Ok (), (w, written))
  end.

(** [with open(path, 'w', encoding='utf-8') as f: f.write(text)] *)
Definition write_file (path text : string) : M process () := λ '(w, written),
  match open_w os path w with
  | Some e => (Raise e, (w, written))
  | None =>
      (Ok (),
       (mk_world (w_random w) (w_objects w)
                 (after_write os path text (w_files w)) (w_stdout w),
        written ++ [(path, text)]))
  end.

(** The body of the loop over the bank files. *)
Definition load_bank (generator : ExamGenerator.t) (bank_file : string)
    : M process ExamGenerator.t :=
  in_world (ExamGenerator.add_bank yaml_safe_load generator bank_file).

(** The body of the loop over the versions. *)
Definition write_version (a : args) (config : config_dict)
    (generator : ExamGenerator.t) (_ : ()) (version : Z) : M process () :=
  selections ← getkey "selections" (c_selections config);
  latex ← in_world (ExamGenerator.generate_exam generator selections version);
  let output_file := joinpath os (output_dir a) (output_name version) in
  write_file output_file latex.

(** On a [config] that is no [dict], [config['question_banks']] raises
    [TypeError]. *)
Definition main (a : args) : M process () :=
  f ← in_world (read_file (config a));
  config ← (if yaml_safe_load_config f is Some config then mret config
            else raise YAMLError);
  let generator := ExamGenerator.__init__ (preamble a) in
  match config with
  | NotDict ty => raise (TypeError (not_subscriptable ty))
  | Dict config =>
      bank_files ← getkey "question_banks" (c_question_banks config);
      generator ← for_each bank_files load_bank generator;
      mkdir (output_dir a);;
      for_each (range 1 (versions a + 1)) (write_version a config generator) ()
  end.
End driver.
End Main.

(** ** Vocabulary of the further properties *)

(** [q] is the object [Question(data)] builds from the record [r]: the
    four subscripted keys, the defaults of [points] and [id], no cache. *)
Definition built_from (r : Question.record) (q : Question.t) : Prop :=
  match r with
  | Dict r =>
      Question.d_text r = Some (Question.text q)
      ∧ Question.d_type r = Some (Question.type q)
      ∧ Question.d_choices r = Some (Question.choices q)
      ∧ Question.d_correct_answers r = Some (Question.correct_answers q)
      ∧ Question.points q = default 1%Z (Question.d_points r)
      ∧ Question.id q = default "" (Question.d_id r)
      ∧ Question._shuffled_indices q = None
  | NotDict _ => False
  end.

(** The first key, in the order [Question.__init__] subscripts them, that
    a record which is a [dict] lacks. *)
Definition first_missing_key (r : Question.record) : option string :=
  match r with
  | Dict r =>
      match Question.d_text r, Question.d_type r, Question.d_choices r,
            Question.d_correct_answers r with
      | None, _, _, _ => Some "text"
      | Some _, None, _, _ => Some "type"
      | Some _, Some _, None, _ => Some "choices"
      | Some _, Some _, Some _, None => Some "correct_answers"
      | Some _, Some _, Some _, Some _ => None
      end
  | NotDict _ => None
  end.

(** [q'] is the object [q] after some calls: its fields are those of [q],
    its cache may differ, and a cache [q] had is kept. *)
Definition same_question (q q' : Question.t) : Prop :=
  q' = Question.set_shuffled_indices (Question._shuffled_indices q') q
  ∧ ∀ indices, Question._shuffled_indices q = Some indices →
               Question._shuffled_indices q' = Some indices.

(** The block [to_latex] renders for [q] with the choices in the order
    [indices]. *)
Definition rendering (q : Question.t) (indices : list nat) : string :=
  latex_header q
  +:+ lines (Question.choice_line (Question.correct_answers q)
               <$> reordered (Question.choices q) indices)
  +:+ latex_footer.

(** The block of the object [l] refers to, read off its cached
    permutation. *)
Definition block_of (objects : list Question.t) (l : loc) : string :=
  match objects !! l with
  | Some q =>
      match Question._shuffled_indices q with
      | Some indices => rendering q indices
      | None => ""
      end
  | None => ""
  end.

(** The document [generate_exam] builds from the preamble and the blocks
    of the questions. *)
Definition document (preamble : string) (blocks : list string) : string :=
  preamble +:+ "\begin{questions}" +:+ nl
  +:+ lines ((λ block, block +:+ nl) <$> blocks)
  +:+ "\end{questions}" +:+ nl +:+ "\end{document}".

(** Every object of the store is in a valid state, and every reference a
    bank of the generator holds denotes an object of the store. *)
Definition store_ok {rng} (self : ExamGenerator.t) (w : world rng) : Prop :=
  Forall cache_valid (w_objects w)
  ∧ ∀ name bank, ExamGenerator.banks self !! name = Some bank →
      Forall (λ l, l < length (w_objects w)) (QuestionBank.questions bank).

(** The questions [generate_exam] samples for one selections entry: as
    many as asked for, each from the bank of that name, and distinct when
    the bank holds each question once. *)
Definition sampled_for (self : ExamGenerator.t) (selection : string * Z)
    (questions : list loc) : Prop :=
  ∃ bank, ExamGenerator.banks self !! selection.1 = Some bank
          ∧ length questions = Z.to_nat selection.2
          ∧ questions ⊆ QuestionBank.questions bank
          ∧ (NoDup (QuestionBank.questions bank) → NoDup questions).

(** The custom preamble file, if one is configured, can be read or does
    not exist: [_generate_preamble] does not raise. *)
Definition preamble_available {rng} (self : ExamGenerator.t) (w : world rng) : Prop :=
  ∀ path err,
    ExamGenerator.truthy (ExamGenerator.preamble_file self) = Some path →
    w_files w path = inl err → err = ENOENT.

(** [entry] is the file the driver writes for [version]: its path is the
    output directory joined with the name of the version, and its text is
    the document of the default preamble and of the blocks, as the store
    [objects] gives them, of questions sampled for the selections, each of
    them shuffled. *)
Definition version_entry {rng} (os : Main.os_calls rng) (a : Main.args)
    (generator : ExamGenerator.t) (selections : list (string * Z))
    (objects : list Question.t) (version : Z) (entry : string * string) : Prop :=
  entry.1 = Main.joinpath os (Main.output_dir a) (Main.output_name version)
  ∧ ∃ groups,
      entry.2 = document (ExamGenerator.default_preamble version)
                         (block_of objects <$> concat groups)
      ∧ Forall2 (sampled_for generator) selections groups
      ∧ Forall (λ l, ∃ q, objects !! l = Some q ∧ cache_state_of q = SHUFFLED)
               (concat groups).

(** ** Sample data of a run *)

Module Run.

Definition r_abc : Question.record :=
  Dict (Question.mk_dict (Some "Pick one.") (Some 2%Z) (Some "multiple_choice")
                         (Some ["A"; "B"; "C"]) (Some (Single "B")) (Some "q1")).

(** Without [points] and [id]. *)
Definition r_plain : Question.record :=
  Dict (Question.mk_dict (Some "Pick all.") None (Some "multiple_selection")
                         (Some ["A"; "B"]) (Some (Multi ["A"; "B"])) None).

(** Without [type] and [correct_answers]. *)
Definition r_no_type : Question.record :=
  Dict (Question.mk_dict (Some "Broken.") None None (Some ["A"]) None None).

Definition parse_bank (f : string) : option (parsed QuestionBank.dict) :=
  if decide (f = "final") then
    Some (Dict (QuestionBank.mk_dict (Some "final") (Some [r_abc; r_plain])))
  else if decide (f = "broken") then
    Some (Dict (QuestionBank.mk_dict (Some "broken")
                  (Some [r_abc; r_no_type; r_plain])))
  else None.

Definition parse_config (f : string) : option (parsed Main.config_dict) :=
  if decide (f = "config") then
    Some (Dict (Main.mk_config (Some ["final.yaml"]) (Some [("final", 1%Z)])))
  else if decide (f = "bare") then
    Some (Dict (Main.mk_config (Some ["final.yaml"]) None))
  else None.

Definition files (path : string) : errno + string :=
  if decide (path = "final.yaml") then inr "final"
  else if decide (path = "broken.yaml") then inr "broken"
  else if decide (path = "exam.yaml") then inr "config"
  else if decide (path = "bare.yaml") then inr "bare"
  else if decide (path = "locked.tex") then inl EACCES
  else inl ENOENT.

Definition w_start : world (list nat) := mk_world [3; 1; 4; 1; 5] [] files [].

Definition join (directory name : string) : string := directory +:+ "/" +:+ name.

Definition write (path text : string) (fs : string → errno + string)
    : string → errno + string :=
  λ p, if decide (p = path) then inr text else fs p.

(** Every call into the operating system succeeds. *)
Definition os_ok : Main.os_calls (list nat) :=
  Main.mk_os _ (λ _ _, None) join (λ _ _, None) write.

(** The file of version 2 cannot be opened. *)
Definition os_locked : Main.os_calls (list nat) :=
  Main.mk_os _ (λ _ _, None) join
    (λ path _, if decide (path = "out/exam_v2.tex")
               then Some (OSError EACCES path) else None)
    write.

(** Two versions, with [--no-shuffle]. *)
Definition a_two : Main.args := Main.mk_args "exam.yaml" 2 "out" None true.

(** No version, and a configuration without selections. *)
Definition a_none : Main.args := Main.mk_args "bare.yaml" 0 "out" None false.

Definition final : QuestionBank.t := QuestionBank.mk "final" [0; 1].

(** The generator and the world once [final.yaml] is loaded. *)
Definition loaded : outcome ExamGenerator.t * (world (list nat) * list (string * string)) :=
  for_each ["final.yaml"] (Main.load_bank parse_bank)
    (ExamGenerator.__init__ None) (w_start, []).

Definition generator : ExamGenerator.t :=
  ExamGenerator.mk {["final" := final]} None.

Definition w_loaded : world (list nat) := loaded.2.1.

End Run.

(** * Properties *)

(** ** The tape is a random source *)

Section tape_laws.
Import Tape.

Lemma randbelow_lt n g : 0 < n → (randbelow n g).1 < n.
Proof.
  intros Hn. destruct g as [|d g']; simpl; [done|].
  apply Nat.mod_upper_bound. lia.
Qed.

Lemma insert_cons_perm {A} (l : list A) j b c :
  l !! j = Some b → b :: <[j := c]> l ≡ₚ c :: l.
Proof.
  revert j. induction l as [|a l IH]; intros [|j] Hj; simplify_eq/=.
  - apply perm_swap.
  - trans (a :: b :: <[j:=c]> l); [apply perm_swap|].
    trans (a :: c :: l); [|apply perm_swap].
    constructor. by apply IH.
Qed.

Lemma swap_perm {A} (x : list A) i j : swap x i j ≡ₚ x.
Proof.
  unfold swap.
  destruct (x !! i) as [a|] eqn:Hi; [|done].
  destruct (x !! j) as [b|] eqn:Hj; [|done].
  destruct (decide (i = j)) as [->|Hne].
  - simplify_eq. rewrite list_insert_insert_eq. by rewrite list_insert_id.
  - assert (<[i:=b]> x !! j = Some b) as Hj'.
    { by rewrite list_lookup_insert_ne. }
    apply (Permutation_cons_inv (a := b)).
    rewrite (insert_cons_perm _ _ _ a Hj').
    exact (insert_cons_perm _ _ _ b Hi).
Qed.

Lemma shuffle_loop_perm {A} i (x : list A) g : (shuffle_loop i x g).1 ≡ₚ x.
Proof.
  revert x g. induction i as [|i IH]; intros x g; [done|].
  cbn [shuffle_loop]. destruct (randbelow _ g) as [j g'].
  rewrite IH. apply swap_perm.
Qed.

Lemma shuffle_perm {A} (x : list A) g : (shuffle x g).1 ≡ₚ x.
Proof. apply shuffle_loop_perm. Qed.

Lemma take_pick_perm (pool : list nat) live j :
  j < live → live ≤ length pool →
  take live pool ≡ₚ
    default 0 (pool !! j)
    :: take (live - 1) (<[j := default 0 (pool !! (live - 1))]> pool).
Proof.
  intros Hj Hlive. destruct live as [|m]; [lia|].
  replace (S m - 1) with m by lia.
  destruct (lookup_lt_is_Some_2 pool m) as [pm Hm]; [lia|].
  destruct (lookup_lt_is_Some_2 pool j) as [pj Hpj]; [lia|].
  rewrite Hm, Hpj. simpl.
  rewrite (take_S_r _ _ _ Hm).
  rewrite <-Permutation_cons_append.
  destruct (decide (j = m)) as [->|Hne].
  - simplify_eq. by rewrite list_insert_id.
  - rewrite take_insert_lt by lia.
    symmetry. apply insert_cons_perm.
    rewrite lookup_take_lt by lia. done.
Qed.

Lemma sample_loop_spec k : ∀ live pool g,
  k ≤ live → live ≤ length pool → NoDup (take live pool) →
  length (sample_loop k live pool g).1 = k
  ∧ NoDup (sample_loop k live pool g).1
  ∧ (sample_loop k live pool g).1 ⊆ take live pool.
Proof.
  induction k as [|k IH]; intros live pool g Hk Hlive Hnd; simpl.
  { split_and!; [done|constructor|set_solver]. }
  pose proof (randbelow_lt live g ltac:(lia)) as Hj.
  destruct (randbelow live g) as [j g']. simpl in Hj.
  pose proof (take_pick_perm pool live j Hj Hlive) as Hperm.
  set (picked := default 0 (pool !! j)) in *.
  set (pool' := <[j := default 0 (pool !! (live - 1))]> pool) in *.
  rewrite Hperm in Hnd. apply NoDup_cons in Hnd as [Hnotin Hnd'].
  destruct (IH (live - 1) pool' g') as (Hlen & Hnodup & Hsub);
    [lia|unfold pool'; rewrite length_insert; lia|done|].
  destruct (sample_loop k (live - 1) pool' g') as [rest g'']. simpl in *.
  split_and!.
  - by rewrite Hlen.
  - apply NoDup_cons. split; [|done]. intros Hin. apply Hnotin, Hsub, Hin.
  - rewrite Hperm. intros y Hy. apply elem_of_cons in Hy as [->|Hy].
    + left.
    + right. by apply Hsub.
Qed.

Lemma sample_positions_spec n k g :
  k ≤ n →
  length (sample_positions n k g).1 = k
  ∧ NoDup (sample_positions n k g).1
  ∧ Forall (λ i, i < n) (sample_positions n k g).1.
Proof.
  intros Hk. unfold sample_positions.
  destruct (sample_loop_spec k n (seq 0 n) g) as (Hlen & Hnd & Hsub).
  - done.
  - by rewrite length_seq.
  - rewrite firstn_all2 by (rewrite length_seq; lia). apply NoDup_seq.
  - split_and!; [done..|].
    apply Forall_forall. intros i Hi. apply Hsub in Hi.
    apply elem_of_take in Hi as (p & Hp & _).
    apply lookup_seq in Hp. lia.
Qed.
End tape_laws.

#[global] Instance tape_random_source : RandomSource Tape.rng := {|
  random_shuffle := @Tape.shuffle;
  random_sample_positions := Tape.sample_positions;
  random_shuffle_perm := @shuffle_perm;
  random_sample_positions_spec := sample_positions_spec;
|}.

(** ** Loops and comprehensions *)

Section loops.
Context {S : Type}.

Lemma comprehension_getitem {A} (d : A) (l : list A) (indices : list nat) (s : S) :
  Forall (λ i, i < length l) indices →
  comprehension (getitem l) indices s
  = (Ok ((λ i, default d (l !! i)) <$> indices), s).
Proof.
  induction 1 as [|i indices Hi _ IH]; [done|].
  destruct (lookup_lt_is_Some_2 l i Hi) as [x Hx].
  cbn [comprehension]. unfold mbind, M_bind, getitem at 1.
  rewrite Hx. unfold mret at 1, M_ret at 1.
  change (comprehension (getitem l) indices s) with
    (comprehension (S := S) (getitem l) indices s).
  rewrite IH. simpl. by rewrite Hx.
Qed.

Lemma fmap_lookup_perm {A} (d : A) (l : list A) (indices : list nat) :
  indices ≡ₚ seq 0 (length l) →
  (λ i, default d (l !! i)) <$> indices ≡ₚ l.
Proof.
  intros ->.
  enough ((λ i, default d (l !! i)) <$> seq 0 (length l) = l) as Heq
    by (by rewrite Heq).
  apply list_eq. intros i. rewrite list_lookup_fmap.
  destruct (decide (i < length l)) as [Hi|Hi].
  - rewrite lookup_seq_lt by done. simpl.
    destruct (lookup_lt_is_Some_2 l i Hi) as [x Hx]. by rewrite Hx.
  - rewrite lookup_seq_ge by lia. simpl. symmetry. apply lookup_ge_None. lia.
Qed.

Lemma foldl_append_filter (listed : list string) (cs acc : list string) :
  foldl (λ acc choice,
           if bool_decide (choice ∈ listed) then acc ++ [choice] else acc) acc cs
  = acc ++ filter (λ c, c ∈ listed) cs.
Proof.
  revert acc. induction cs as [|c cs IH]; intros acc; simpl.
  { by rewrite app_nil_r. }
  rewrite IH. rewrite filter_cons. case_bool_decide.
  - rewrite decide_True by done. by rewrite <-app_assoc.
  - by rewrite decide_False.
Qed.
End loops.

(** ** Question: the shuffle cache *)

Section question_cache.
Context `{RandomSource rng}.
Implicit Types (q : Question.t) (g : rng).

Lemma cache_valid_in_range q indices :
  cache_valid q → Question._shuffled_indices q = Some indices →
  Forall (λ i, i < length (Question.choices q)) indices.
Proof.
  unfold cache_valid. intros Hvalid Hsome. rewrite Hsome in Hvalid.
  apply Forall_forall. intros i Hi. rewrite Hvalid in Hi.
  apply elem_of_seq in Hi. lia.
Qed.

Lemma reordered_perm q indices :
  cache_valid q → Question._shuffled_indices q = Some indices →
  reordered (Question.choices q) indices ≡ₚ Question.choices q.
Proof.
  unfold cache_valid. intros Hvalid Hsome. rewrite Hsome in Hvalid.
  by apply fmap_lookup_perm.
Qed.

(** With a permutation cached, [get_shuffled_choices] reads it and leaves
    [self] and [random] alone. *)
Lemma get_shuffled_choices_cached q g indices :
  Question._shuffled_indices q = Some indices →
  Forall (λ i, i < length (Question.choices q)) indices →
  Question.get_shuffled_choices (q, g)
  = (Ok (reordered (Question.choices q) indices,
         expressed (Question.correct_answers q)
                   (reordered (Question.choices q) indices)),
     (q, g)).
Proof.
  intros Hsome Hrange. unfold Question.get_shuffled_choices.
  unfold mbind, M_bind, get_state. simpl. rewrite Hsome. simpl.
  rewrite Hsome.
  rewrite (comprehension_getitem "" _ _ _ Hrange).
  fold (reordered (Question.choices q) indices).
  destruct (Question.correct_answers q) as [answer|listed] eqn:Hca; simpl.
  - done.
  - by rewrite foldl_append_filter.
Qed.

(** With nothing cached, it shuffles the index range first. *)
Lemma get_shuffled_choices_fresh q g :
  Question._shuffled_indices q = None →
  Question.get_shuffled_choices (q, g)
  = Question.get_shuffled_choices
      (Question.set_shuffled_indices
         (Some (random_shuffle (seq 0 (length (Question.choices q))) g).1) q,
       (random_shuffle (seq 0 (length (Question.choices q))) g).2).
Proof.
  intros Hnone. unfold Question.get_shuffled_choices.
  unfold mbind, M_bind, get_state. simpl. rewrite Hnone.
  unfold Question.shuffle_choices.
  destruct (random_shuffle _ g) as [indices g']. done.
Qed.

Lemma shuffle_choices_valid q g :
  ∃ indices g',
    Question.shuffle_choices (q, g)
    = (Ok (), (Question.set_shuffled_indices (Some indices) q, g'))
    ∧ indices ≡ₚ seq 0 (length (Question.choices q)).
Proof.
  unfold Question.shuffle_choices.
  pose proof (random_shuffle_perm _ (seq 0 (length (Question.choices q))) g) as Hp.
  destruct (random_shuffle _ g) as [indices g']. by exists indices, g'.
Qed.
End question_cache.

(** ** Strings *)

Lemma append_cons (x : ascii) (a b : string) :
  String x a +:+ b = String x (a +:+ b).
Proof. reflexivity. Qed.

Lemma append_nil_l (a : string) : "" +:+ a = a.
Proof. reflexivity. Qed.

Lemma append_assoc (a b c : string) : (a +:+ b) +:+ c = a +:+ b +:+ c.
Proof. induction a as [|x a IH]; [done|]. rewrite !append_cons. by f_equal. Qed.

Lemma append_nil_r (a : string) : a +:+ "" = a.
Proof. induction a as [|x a IH]; [done|]. rewrite append_cons. by f_equal. Qed.

Lemma length_append (a b : string) :
  String.length (a +:+ b) = String.length a + String.length b.
Proof.
  induction a as [|x a IH]; [done|]. rewrite append_cons. simpl. by f_equal.
Qed.

Lemma lines_app (xs ys : list string) : lines (xs ++ ys) = lines xs +:+ lines ys.
Proof.
  induction xs as [|x xs IH]; [done|].
  change (x +:+ lines (xs ++ ys) = (x +:+ lines xs) +:+ lines ys).
  by rewrite IH, append_assoc.
Qed.

Lemma foldl_append_lines {A} (f : A → string) (xs : list A) (init : string) :
  foldl (λ latex x, latex +:+ f x) init xs = init +:+ lines (f <$> xs).
Proof.
  revert init. induction xs as [|x xs IH]; intros init.
  { simpl. by rewrite append_nil_r. }
  change (foldl (λ latex x, latex +:+ f x) (init +:+ f x) xs
          = init +:+ f x +:+ lines (f <$> xs)).
  by rewrite IH, append_assoc.
Qed.

Lemma char_in_append (c : ascii) (a b : string) :
  char_in c (a +:+ b) = char_in c a || char_in c b.
Proof.
  induction a as [|x a IH]; [done|].
  rewrite append_cons. simpl. by rewrite IH, orb_assoc.
Qed.

(** A text that starts with a line without a line break and the end of
    that line: its first line is that line. *)
Lemma text_lines_line (l rest : string) :
  single_line l → text_lines (l +:+ nl +:+ rest) = l :: text_lines rest.
Proof.
  unfold single_line. induction l as [|c l IH]; intros Hl; [reflexivity|].
  simpl in Hl. apply orb_false_iff in Hl as [Hc Hl].
  apply bool_decide_eq_false in Hc.
  rewrite append_cons. cbn [text_lines].
  rewrite decide_False by (by intros ->).
  by rewrite IH.
Qed.

(** Lines without line breaks are the lines of their text. *)
Lemma text_lines_unlines (ls : list string) :
  Forall single_line ls → text_lines (unlines ls) = ls.
Proof.
  unfold unlines. induction 1 as [|l ls Hl _ IH]; [done|].
  change (text_lines ((l +:+ nl) +:+ lines ((λ line, line +:+ nl) <$> ls))
          = l :: ls).
  by rewrite append_assoc, text_lines_line, IH.
Qed.

(** ** Question: what [get_shuffled_choices] and [to_latex] return *)

Section question_methods.
Context `{RandomSource rng}.
Implicit Types (q : Question.t) (g : rng).

Lemma set_shuffled_indices_id q indices :
  Question._shuffled_indices q = Some indices →
  Question.set_shuffled_indices (Some indices) q = q.
Proof. destruct q. simpl. by intros ->. Qed.

(** On an object in a valid state the call returns, with the cached
    permutation [indices] in place afterwards; a permutation that was
    cached before is the one used, and [random] is not consulted. *)
Lemma get_shuffled_choices_spec q g :
  cache_valid q →
  ∃ indices g',
    Question.get_shuffled_choices (q, g)
    = (Ok (reordered (Question.choices q) indices,
           expressed (Question.correct_answers q)
                     (reordered (Question.choices q) indices)),
       (Question.set_shuffled_indices (Some indices) q, g'))
    ∧ indices ≡ₚ seq 0 (length (Question.choices q))
    ∧ (∀ cached, Question._shuffled_indices q = Some cached →
         cached = indices ∧ g' = g).
Proof.
  intros Hvalid.
  destruct (Question._shuffled_indices q) as [cached|] eqn:Hcache.
  - exists cached, g. split_and!.
    + rewrite (set_shuffled_indices_id _ _ Hcache).
      apply get_shuffled_choices_cached; [done|].
      by apply cache_valid_in_range.
    + unfold cache_valid in Hvalid. by rewrite Hcache in Hvalid.
    + by intros ? [= <-].
  - rewrite get_shuffled_choices_fresh by done.
    pose proof (random_shuffle_perm _ (seq 0 (length (Question.choices q))) g) as Hp.
    destruct (random_shuffle _ g) as [indices g']. simpl in *.
    exists indices, g'. split_and!; [|done..].
    apply (get_shuffled_choices_cached
             (Question.set_shuffled_indices (Some indices) q)); [done|].
    simpl. apply Forall_forall. intros i Hi. rewrite Hp in Hi.
    apply elem_of_seq in Hi. lia.
Qed.

Lemma to_latex_unfold shuffle q g :
  Question.to_latex shuffle (q, g)
  = match (if shuffle then Question.get_shuffled_choices (q, g)
           else (Ok (Question.choices q, Question.correct_answers q), (q, g))) with
    | (Ok (cs, correct), st) =>
        (Ok (latex_header q
             +:+ lines (Question.choice_line correct <$> cs)
             +:+ latex_footer), st)
    | (Raise e, st) => (Raise e, st)
    | (Stuck, st) => (Stuck, st)
    end.
Proof.
  unfold Question.to_latex. unfold mbind at 1, M_bind at 1, get_state at 1.
  cbn iota beta. unfold mbind at 1, M_bind at 1.
  destruct shuffle.
  - destruct (Question.get_shuffled_choices (q, g)) as [[[cs correct]|e|] st];
      [|done..].
    unfold mret, M_ret. rewrite foldl_append_lines.
    unfold latex_header, latex_footer. by rewrite !append_assoc.
  - unfold mret, M_ret. rewrite foldl_append_lines.
    unfold latex_header, latex_footer. by rewrite !append_assoc.
Qed.
End question_methods.

Section question_claims.
Context `{RandomSource rng}.
Implicit Types (q : Question.t) (g : rng).

Lemma choice_line_filtered (listed cs : list string) :
  Question.choice_line (Multi (filter (λ c, c ∈ listed) cs)) <$> cs
  = Question.choice_line (Multi listed) <$> cs.
Proof.
  apply list_fmap_ext. intros _ c Hc%list_elem_of_lookup_2. simpl.
  enough (bool_decide (c ∈ filter (λ c, c ∈ listed) cs) = bool_decide (c ∈ listed))
    as -> by done.
  apply bool_decide_ext. rewrite list_elem_of_filter. tauto.
Qed.

(** The lines [to_latex] appends for the choices [cs], as lines of text:
    the marker chosen by the test on [correct], then the choice. *)
Lemma choice_lines_multi (listed cs : list string) :
  lines (Question.choice_line (Multi listed) <$> cs)
  = unlines ((λ c, (if bool_decide (c ∈ listed) then "\correctchoice "
                    else "\choice ") +:+ c) <$> cs).
Proof.
  unfold unlines. rewrite <-list_fmap_compose. f_equal.
  apply list_fmap_ext. intros _ c _. simpl.
  unfold Question.correctchoice, Question.plainchoice.
  destruct (bool_decide (c ∈ listed)); by rewrite append_assoc.
Qed.

Lemma choice_lines_single (answer : string) (cs : list string) :
  lines (Question.choice_line (Single answer) <$> cs)
  = unlines ((λ c, (if bool_decide (c = answer) then "\correctchoice "
                    else "\choice ") +:+ c) <$> cs).
Proof.
  unfold unlines. rewrite <-list_fmap_compose. f_equal.
  apply list_fmap_ext. intros _ c _. simpl.
  unfold Question.correctchoice, Question.plainchoice.
  destruct (bool_decide (c = answer)); by rewrite append_assoc.
Qed.

Lemma choice_lines_other (answer : string) (cs : list string) :
  answer ∉ cs →
  (λ c, (if bool_decide (c = answer) then "\correctchoice "
         else "\choice ") +:+ c) <$> cs
  = String.append "\choice " <$> cs.
Proof.
  intros Hnotin. apply list_fmap_ext. intros _ c Hc%list_elem_of_lookup_2. simpl.
  rewrite bool_decide_false; [done|]. by intros ->.
Qed.

Lemma plain_lines_single (cs : list string) :
  Forall single_line cs → Forall single_line (String.append "\choice " <$> cs).
Proof.
  intros Hcs. apply Forall_fmap. eapply Forall_impl; [exact Hcs|].
  unfold single_line. simpl. intros c Hc. by rewrite char_in_append, Hc.
Qed.

Lemma plain_lines_not_marked_correct (cs : list string) :
  filter (λ line, marks_correct line = true) (String.append "\choice " <$> cs) = [].
Proof.
  induction cs as [|c cs IH]; [done|].
  rewrite fmap_cons, filter_cons_False; [done|]. discriminate.
Qed.

(** C1. On every [Question] object, [get_shuffled_choices] returns the
    choices as a permutation of [self.choices], and a repeated call on the
    same instance, whatever happened to [random] meanwhile, returns the
    result of the first call and leaves the instance as it is (so the same
    holds of every later call). The choices need not be non-empty. *)
Theorem C1_shuffled_choices_permutation_stable q g :
  cache_valid q →
  ∃ shuffled correct q' g',
    Question.get_shuffled_choices (q, g) = (Ok (shuffled, correct), (q', g'))
    ∧ shuffled ≡ₚ Question.choices q
    ∧ ∀ g2, Question.get_shuffled_choices (q', g2)
            = (Ok (shuffled, correct), (q', g2)).
Proof.
  intros Hvalid.
  destruct (get_shuffled_choices_spec q g Hvalid) as (indices & g' & Hget & Hperm & _).
  eexists _, _, _, _. split; [exact Hget|]. split.
  - by apply fmap_lookup_perm.
  - intros g2.
    apply (get_shuffled_choices_cached
             (Question.set_shuffled_indices (Some indices) q)); [done|].
    simpl. apply Forall_forall. intros i Hi. rewrite Hperm in Hi.
    apply elem_of_seq in Hi. lia.
Qed.

(** C6. For a [Question] whose [correct_answers] is a list,
    [get_shuffled_choices] returns as correct answers the shuffled choices
    that are listed: as a set, the listed values that are choices; in the
    order of the shuffled choices (a subsequence of them); and with every
    occurrence of a listed value among the choices. *)
Theorem C6_multi_correct_subsequence q g listed :
  cache_valid q →
  Question.correct_answers q = Multi listed →
  ∃ shuffled shuffled_correct st,
    Question.get_shuffled_choices (q, g)
    = (Ok (shuffled, Multi shuffled_correct), st)
    ∧ shuffled ≡ₚ Question.choices q
    ∧ (∀ c, c ∈ shuffled_correct ↔ c ∈ listed ∧ c ∈ Question.choices q)
    ∧ shuffled_correct = filter (λ c, c ∈ listed) shuffled
    ∧ sublist shuffled_correct shuffled
    ∧ (∀ c, c ∈ listed →
         length (filter (λ x, x = c) shuffled_correct)
         = length (filter (λ x, x = c) (Question.choices q))).
Proof.
  intros Hvalid Hmulti.
  destruct (get_shuffled_choices_spec q g Hvalid) as (indices & g' & Hget & Hperm & _).
  rewrite Hmulti in Hget. simpl in Hget.
  pose proof (fmap_lookup_perm "" (Question.choices q) indices Hperm) as Hshuffled.
  fold (reordered (Question.choices q) indices) in Hshuffled.
  set (cs := reordered (Question.choices q) indices) in *.
  eexists _, _, _. split; [exact Hget|]. split_and!.
  - done.
  - intros c. rewrite list_elem_of_filter. by rewrite Hshuffled.
  - done.
  - apply sublist_filter.
  - intros c Hc. rewrite list_filter_filter.
    rewrite <-Hshuffled.
    f_equal. apply list_filter_iff. intros x. split; [tauto|]. by intros ->.
Qed.

(** C8 (amended). For a [Question] whose [correct_answers] is a single
    string that is one of its pairwise distinct choices, none of which
    holds a line break, [to_latex], shuffling or not, renders the header,
    one line of text per choice and the footer. Exactly one of these
    lines is marked correct, it reads [\correctchoice] followed by the
    correct answer, and every other line is marked incorrect: it reads
    [\choice] followed by its choice. The lines are in the order of a
    permutation of the choices, the declared order without shuffling. *)
Theorem C8_single_correct_one_marked q g shuffle answer :
  cache_valid q →
  Question.correct_answers q = Single answer →
  NoDup (Question.choices q) →
  answer ∈ Question.choices q →
  Forall single_line (Question.choices q) →
  ∃ before after ls st,
    Question.to_latex shuffle (q, g)
    = (Ok (latex_header q +:+ unlines ls +:+ latex_footer), st)
    ∧ text_lines (unlines ls) = ls
    ∧ ls = (String.append "\choice " <$> before)
           ++ ("\correctchoice " +:+ answer)
           :: (String.append "\choice " <$> after)
    ∧ before ++ answer :: after ≡ₚ Question.choices q
    ∧ (shuffle = false → before ++ answer :: after = Question.choices q)
    ∧ (answer ∉ before) ∧ (answer ∉ after)
    ∧ filter (λ line, marks_correct line = true) ls
      = ["\correctchoice " +:+ answer]
    ∧ (∀ line, line ∈ ls → line ≠ "\correctchoice " +:+ answer →
         marks_incorrect line = true ∧ marks_correct line = false).
Proof.
  intros Hvalid Hsingle Hnodup Hin Hlines.
  assert (∃ cs st,
    Question.to_latex shuffle (q, g)
    = (Ok (latex_header q
           +:+ lines (Question.choice_line (Single answer) <$> cs)
           +:+ latex_footer), st)
    ∧ cs ≡ₚ Question.choices q
    ∧ (shuffle = false → cs = Question.choices q)) as (cs & st & Hlatex & Hperm & Hsame).
  { rewrite to_latex_unfold. destruct shuffle.
    - destruct (get_shuffled_choices_spec q g Hvalid)
        as (indices & g' & Hget & Hperm & _).
      rewrite Hget, Hsingle. simpl. eexists _, _. split; [done|]. split; [|done].
      by apply fmap_lookup_perm.
    - rewrite Hsingle. by eexists _, _. }
  rewrite <-Hperm in Hnodup, Hin, Hlines.
  apply list_elem_of_split in Hin as (before & after & ->).
  apply NoDup_app in Hnodup as (_ & Hdisj & Hnodup').
  apply NoDup_cons in Hnodup' as [Hafter _].
  assert (answer ∉ before) as Hbefore.
  { intros Hb. apply (Hdisj _ Hb). left. }
  apply Forall_app in Hlines as [Hlines_before Hlines_rest].
  apply Forall_cons in Hlines_rest as [Hline_answer Hlines_after].
  exists before, after,
    ((String.append "\choice " <$> before)
     ++ ("\correctchoice " +:+ answer) :: (String.append "\choice " <$> after)), st.
  split_and!; [| |reflexivity|done..| |].
  - rewrite Hlatex, choice_lines_single. rewrite fmap_app, fmap_cons.
    rewrite !choice_lines_other by done.
    by rewrite bool_decide_true.
  - apply text_lines_unlines. apply Forall_app. split.
    { by apply plain_lines_single. }
    constructor; [|by apply plain_lines_single].
    unfold single_line in *. by rewrite char_in_append, Hline_answer.
  - rewrite filter_app, filter_cons_True by reflexivity.
    by rewrite !plain_lines_not_marked_correct.
  - intros line Hline Hother.
    apply elem_of_app in Hline as [Hline|Hline];
      [|apply elem_of_cons in Hline as [->|Hline]; [done|]];
      apply list_elem_of_fmap in Hline as (c & -> & _); by split.
Qed.

(** C10. Neither [get_shuffled_choices] nor [to_latex] reads the type tag:
    with any other tag the calls return the same and leave the same state.
    Which semantics applies follows from [correct_answers] alone. When it
    is a list, whatever the tag (also [multiple_choice]),
    [get_shuffled_choices] returns the shuffled choices with those of them
    that are listed, and [to_latex] renders one line for each choice (the
    choices [get_shuffled_choices] returns when shuffling, the declared
    ones otherwise), marked [\correctchoice] when the choice is listed and
    [\choice] when not. When it is a single string, whatever the tag
    (also [multiple_selection]), that string is returned, and the line of
    a choice is marked [\correctchoice] when the choice equals it. *)
Theorem C10_dispatch_on_list_not_tag q g tag shuffle :
  cache_valid q →
  Question.get_shuffled_choices (Question.set_type tag q, g)
  = (let '(r, (q', g')) := Question.get_shuffled_choices (q, g) in
     (r, (Question.set_type tag q', g')))
  ∧ Question.to_latex shuffle (Question.set_type tag q, g)
    = (let '(r, (q', g')) := Question.to_latex shuffle (q, g) in
       (r, (Question.set_type tag q', g')))
  ∧ (∀ listed, Question.correct_answers q = Multi listed →
       ∃ cs st st',
         Question.get_shuffled_choices (q, g)
         = (Ok (cs, Multi (filter (λ c, c ∈ listed) cs)), st)
         ∧ cs ≡ₚ Question.choices q
         ∧ Question.to_latex shuffle (q, g)
           = (Ok (latex_header q
                  +:+ unlines ((λ c, (if bool_decide (c ∈ listed)
                                      then "\correctchoice "
                                      else "\choice ") +:+ c)
                               <$> (if shuffle then cs else Question.choices q))
                  +:+ latex_footer), st'))
  ∧ (∀ answer, Question.correct_answers q = Single answer →
       ∃ cs st st',
         Question.get_shuffled_choices (q, g) = (Ok (cs, Single answer), st)
         ∧ cs ≡ₚ Question.choices q
         ∧ Question.to_latex shuffle (q, g)
           = (Ok (latex_header q
                  +:+ unlines ((λ c, (if bool_decide (c = answer)
                                      then "\correctchoice "
                                      else "\choice ") +:+ c)
                               <$> (if shuffle then cs else Question.choices q))
                  +:+ latex_footer), st')).
Proof.
  intros Hvalid.
  destruct (get_shuffled_choices_spec q g Hvalid)
    as (indices & g' & Hget & Hperm & Hsame).
  assert (cache_valid (Question.set_type tag q)) as Hvalid' by done.
  assert (Question.get_shuffled_choices (Question.set_type tag q, g)
          = (let '(r, (q', g')) := Question.get_shuffled_choices (q, g) in
             (r, (Question.set_type tag q', g')))) as Hget_tag.
  { rewrite Hget.
    destruct (Question._shuffled_indices q) as [cached|] eqn:Hcache.
    - destruct (Hsame cached eq_refl) as [<- ->].
      rewrite (get_shuffled_choices_cached _ g cached);
        [|done|by apply (cache_valid_in_range q)].
      simpl. by rewrite (set_shuffled_indices_id _ _ Hcache).
    - rewrite get_shuffled_choices_fresh in Hget by done.
      rewrite get_shuffled_choices_fresh by done. simpl.
      pose proof (random_shuffle_perm _ (seq 0 (length (Question.choices q))) g) as Hp.
      destruct (random_shuffle _ g) as [drawn g1]. simpl in *.
      assert (Forall (λ i, i < length (Question.choices q)) drawn) as Hrange.
      { apply Forall_forall. intros i Hi. rewrite Hp in Hi.
        apply elem_of_seq in Hi. lia. }
      rewrite (get_shuffled_choices_cached _ g1 drawn) in Hget by done.
      rewrite (get_shuffled_choices_cached _ g1 drawn) by done.
      simpl in *. by simplify_eq. }
  pose proof (fmap_lookup_perm "" (Question.choices q) indices Hperm) as Hshuffled.
  fold (reordered (Question.choices q) indices) in Hshuffled.
  split; [exact Hget_tag|]. split.
  { rewrite !to_latex_unfold. destruct shuffle.
    - rewrite Hget_tag, Hget. done.
    - done. }
  split.
  - intros listed Hmulti. destruct shuffle; eexists _, _, _.
    + split; [by rewrite Hget, Hmulti|]. split; [exact Hshuffled|].
      rewrite to_latex_unfold, Hget, Hmulti. simpl.
      by rewrite choice_line_filtered, choice_lines_multi.
    + split; [by rewrite Hget, Hmulti|]. split; [exact Hshuffled|].
      by rewrite to_latex_unfold, Hmulti, choice_lines_multi.
  - intros answer Hsingle. destruct shuffle; eexists _, _, _.
    + split; [by rewrite Hget, Hsingle|]. split; [exact Hshuffled|].
      rewrite to_latex_unfold, Hget, Hsingle. simpl.
      by rewrite choice_lines_single.
    + split; [by rewrite Hget, Hsingle|]. split; [exact Hshuffled|].
      by rewrite to_latex_unfold, Hsingle, choice_lines_single.
Qed.
End question_claims.

(** ** Question: the shuffle cache as a state machine *)

Section cache_machine.
Context `{RandomSource rng}.
Implicit Types (q : Question.t) (g : rng) (e : event rng).

(** What one event does to an object in a valid state. *)
Lemma happen_spec e q g :
  cache_valid q →
  ∃ q' g',
    happen e (q, g) = (Ok (), (q', g'))
    ∧ cache_valid q'
    ∧ (cache_state_of q = SHUFFLED → cache_state_of q' = SHUFFLED)
    ∧ (e = call_shuffle_choices ∨ e = call_get_shuffled_choices →
       cache_state_of q' = SHUFFLED)
    ∧ (cache_state_of q = SHUFFLED → is_direct_shuffle e = false → q' = q).
Proof.
  intros Hvalid. destruct e as [| |shuffle|g2]; simpl.
  - destruct (shuffle_choices_valid q g) as (indices & g' & Hshuffle & Hperm).
    eexists _, _. split; [exact Hshuffle|]. by split_and!.
  - destruct (get_shuffled_choices_spec q g Hvalid)
      as (indices & g' & Hget & Hperm & Hsame).
    eexists _, _. split; [by unfold mbind, M_bind; rewrite Hget|].
    split_and!; try done.
    unfold cache_state_of. intros Hs _.
    destruct (Question._shuffled_indices q) as [cached|] eqn:Hcache; [|done].
    destruct (Hsame cached eq_refl) as [<- _].
    by apply set_shuffled_indices_id.
  - destruct shuffle.
    + destruct (get_shuffled_choices_spec q g Hvalid)
        as (indices & g' & Hget & Hperm & Hsame).
      eexists _, _. split.
      { unfold mbind, M_bind. rewrite to_latex_unfold, Hget. done. }
      split_and!; try done.
      unfold cache_state_of. intros Hs _.
      destruct (Question._shuffled_indices q) as [cached|] eqn:Hcache; [|done].
      destruct (Hsame cached eq_refl) as [<- _].
      by apply set_shuffled_indices_id.
    + eexists _, _. split.
      { unfold mbind, M_bind. rewrite to_latex_unfold. done. }
      split_and!; try done. by intros [?|?].
  - eexists _, _. split; [done|]. split_and!; try done. by intros [?|?].
Qed.

Lemma run_cons e es q g :
  run (e :: es) (q, g)
  = match happen e (q, g) with
    | (Ok _, st) => run es st
    | (Raise x, st) => (Raise x, st)
    | (Stuck, st) => (Stuck, st)
    end.
Proof.
  unfold run. cbn [for_each]. unfold mbind at 1, M_bind at 1.
  by destruct (happen e (q, g)) as [[[]|x|] st].
Qed.

(** Every sequence of events runs to completion on a valid object, keeps
    it valid, and keeps it SHUFFLED; without a direct [shuffle_choices]
    call a SHUFFLED object is left as it is. *)
Lemma run_spec es : ∀ q g,
  cache_valid q →
  ∃ q' g',
    run es (q, g) = (Ok (), (q', g'))
    ∧ cache_valid q'
    ∧ (cache_state_of q = SHUFFLED → cache_state_of q' = SHUFFLED)
    ∧ (cache_state_of q = SHUFFLED →
       Forall (λ e, is_direct_shuffle e = false) es → q' = q).
Proof.
  induction es as [|e es IH]; intros q g Hvalid.
  { exists q, g. by split_and!. }
  rewrite run_cons.
  destruct (happen_spec e q g Hvalid) as (q1 & g1 & -> & Hvalid1 & Hkeep1 & _ & Hsame1).
  destruct (IH q1 g1 Hvalid1) as (q2 & g2 & Hrun & Hvalid2 & Hkeep2 & Hsame2).
  exists q2, g2. split_and!; [done|done|by auto|].
  intros Hs [Hne Hes]%Forall_cons.
  rewrite Hsame2; [by apply Hsame1| |done].
  by rewrite Hsame1.
Qed.

(** C7, as amended. The first call to [shuffle_choices] or
    [get_shuffled_choices] leaves the object SHUFFLED, with a permutation
    of the index range stored; whatever follows, the object stays
    SHUFFLED; and the stored permutation is the same after every later
    sequence of [get_shuffled_choices] and [to_latex] calls (and uses of
    [random] elsewhere) that contains no direct call to
    [shuffle_choices]. *)
Theorem C7_cache_set_by_first_call q g first es :
  cache_valid q →
  first = call_shuffle_choices ∨ first = call_get_shuffled_choices →
  ∃ indices q1 g1 q2 g2,
    happen first (q, g) = (Ok (), (q1, g1))
    ∧ Question._shuffled_indices q1 = Some indices
    ∧ indices ≡ₚ seq 0 (length (Question.choices q1))
    ∧ run es (q1, g1) = (Ok (), (q2, g2))
    ∧ cache_state_of q2 = SHUFFLED
    ∧ (Forall (λ e, is_direct_shuffle e = false) es →
       Question._shuffled_indices q2 = Some indices).
Proof.
  intros Hvalid Hfirst.
  destruct (happen_spec first q g Hvalid) as (q1 & g1 & Hfirst1 & Hvalid1 & _ & Hs & _).
  specialize (Hs Hfirst).
  destruct (run_spec es q1 g1 Hvalid1) as (q2 & g2 & Hrun & _ & Hkeep & Hsame).
  unfold cache_state_of in Hs.
  destruct (Question._shuffled_indices q1) as [indices|] eqn:Hcache; [|done].
  exists indices, q1, g1, q2, g2. split_and!; try done.
  - unfold cache_valid in Hvalid1. by rewrite Hcache in Hvalid1.
  - apply Hkeep. unfold cache_state_of. by rewrite Hcache.
  - intros Hes. rewrite Hsame; [done| |done].
    unfold cache_state_of. by rewrite Hcache.
Qed.
End cache_machine.

(** ** QuestionBank: sampling *)

Section sampling.
Context `{RandomSource rng}.
Implicit Types (bank : QuestionBank.t) (w : world rng).

Lemma comprehension_getitem_Forall2 {S A} (l : list A) (indices : list nat) (s : S) :
  Forall (λ i, i < length l) indices →
  ∃ picked,
    comprehension (getitem l) indices s = (Ok picked, s)
    ∧ Forall2 (λ i x, l !! i = Some x) indices picked.
Proof.
  induction 1 as [|i indices Hi _ (picked & IH & Hpicked)].
  { exists []. by split. }
  destruct (lookup_lt_is_Some_2 l i Hi) as [x Hx].
  exists (x :: picked). split; [|by constructor].
  cbn [comprehension]. unfold mbind, M_bind, getitem at 1.
  rewrite Hx. unfold mret at 1, M_ret at 1.
  change (comprehension (getitem l) indices s) with
    (comprehension (S := S) (getitem l) indices s).
  by rewrite IH.
Qed.

(** Elements picked at distinct positions of a list without repetition
    are distinct. *)
Lemma picked_NoDup {A} (l : list A) (positions : list nat) (picked : list A) :
  NoDup l → NoDup positions →
  Forall2 (λ i x, l !! i = Some x) positions picked →
  NoDup picked.
Proof.
  intros Hl Hpos Hpick. apply NoDup_alt. intros a b x Ha Hb.
  destruct (Forall2_lookup_r _ _ _ _ _ Hpick Ha) as (i & Hi & Hix).
  destruct (Forall2_lookup_r _ _ _ _ _ Hpick Hb) as (j & Hj & Hjx).
  assert (i = j) as -> by exact (NoDup_lookup l i j x Hl Hix Hjx).
  exact (NoDup_lookup positions a b j Hpos Hi Hj).
Qed.

Lemma picked_subseteq {A} (l : list A) (positions : list nat) (picked : list A) :
  Forall2 (λ i x, l !! i = Some x) positions picked → picked ⊆ l.
Proof.
  intros Hpick x [a Ha]%list_elem_of_lookup_1.
  destruct (Forall2_lookup_r _ _ _ _ _ Hpick Ha) as (i & _ & Hix).
  by eapply list_elem_of_lookup_2.
Qed.

Lemma random_sample_in_range {A} (population : list A) (k : Z) (g : rng) :
  (0 ≤ k ≤ Z.of_nat (length population))%Z →
  ∃ positions picked g',
    random_sample population k g = (Ok picked, g')
    ∧ length positions = Z.to_nat k
    ∧ NoDup positions
    ∧ Forall2 (λ i x, population !! i = Some x) positions picked.
Proof.
  intros Hk. unfold random_sample. rewrite decide_True by done.
  destruct (random_sample_positions_spec (length population) (Z.to_nat k) g)
    as (Hlen & Hnodup & Hrange); [lia|].
  destruct (random_sample_positions _ _ g) as [positions g']. simpl in *.
  destruct (comprehension_getitem_Forall2 population positions g' Hrange)
    as (picked & Hpicked & Hall).
  by exists positions, picked, g'.
Qed.

Lemma random_sample_out_of_range {A} (population : list A) (k : Z) (g : rng) :
  ¬ (0 ≤ k ≤ Z.of_nat (length population))%Z →
  random_sample population k g = (Raise (ValueError sample_negative_msg), g).
Proof. intros Hk. unfold random_sample. by rewrite decide_False. Qed.

Lemma capacity_msg_not_sample_negative (n : Z) (size : nat) :
  sample_negative_msg ≠ QuestionBank.capacity_msg n size.
Proof. unfold QuestionBank.capacity_msg. rewrite append_cons. discriminate. Qed.

(** C2. For [0 <= n <= len(self.questions)], [sample_questions(n)]
    returns [n] references, taken at pairwise distinct positions of the
    bank's list, hence each drawn from the bank and, the bank's list
    holding each instance once, pairwise distinct; for [n = 0] the result
    is empty. The call changes the state of [random] and nothing else:
    no object of the store, and the bank, is touched. *)
Theorem C2_sample_questions_distinct bank (n : Z) w :
  (0 ≤ n ≤ Z.of_nat (length (QuestionBank.questions bank)))%Z →
  ∃ sampled positions g',
    QuestionBank.sample_questions bank n w = (Ok sampled, set_random g' w)
    ∧ length sampled = Z.to_nat n
    ∧ NoDup positions
    ∧ Forall2 (λ i x, QuestionBank.questions bank !! i = Some x) positions sampled
    ∧ sampled ⊆ QuestionBank.questions bank
    ∧ (NoDup (QuestionBank.questions bank) → NoDup sampled)
    ∧ (n = 0%Z → sampled = []).
Proof.
  intros Hn. unfold QuestionBank.sample_questions.
  rewrite decide_False by lia. unfold with_random.
  destruct (random_sample_in_range (QuestionBank.questions bank) n (w_random w) Hn)
    as (positions & sampled & g' & -> & Hlen & Hnodup & Hpick).
  exists sampled, positions, g'.
  assert (length sampled = Z.to_nat n) as Hlen'.
  { by rewrite <-(Forall2_length _ _ _ Hpick). }
  split_and!; try done.
  - exact (picked_subseteq _ _ _ Hpick).
  - intros Hbank. exact (picked_NoDup _ _ _ Hbank Hnodup Hpick).
  - intros ->. apply nil_length_inv. by rewrite Hlen'.
Qed.

(** C3. [sample_questions(n)] raises its [ValueError] (the capacity
    error) when [n] exceeds the size of the bank, returns for
    [0 <= n <= size], and raises the capacity error in no other case. *)
Theorem C3_capacity_error_iff bank (n : Z) w :
  let size := length (QuestionBank.questions bank) in
  ((n > Z.of_nat size)%Z →
     QuestionBank.sample_questions bank n w
     = (Raise (ValueError (QuestionBank.capacity_msg n size)), w)
     ∧ CapacityError (ValueError (QuestionBank.capacity_msg n size)))
  ∧ ((0 ≤ n ≤ Z.of_nat size)%Z →
     ∃ sampled w', QuestionBank.sample_questions bank n w = (Ok sampled, w'))
  ∧ (∀ e w', QuestionBank.sample_questions bank n w = (Raise e, w') →
       CapacityError e → (n > Z.of_nat size)%Z).
Proof.
  intros size. split_and!.
  - intros Hn. unfold QuestionBank.sample_questions.
    rewrite decide_True by done. split; [done|]. by exists n, size.
  - intros Hn. unfold QuestionBank.sample_questions.
    rewrite decide_False by lia. unfold with_random.
    destruct (random_sample_in_range _ n (w_random w) Hn)
      as (positions & sampled & g' & -> & _).
    by eexists _, _.
  - intros e w' Hraise (n' & size' & ->).
    unfold QuestionBank.sample_questions in Hraise.
    destruct (decide (n > Z.of_nat (length (QuestionBank.questions bank)))%Z)
      as [Hgt|Hle]; [done|].
    unfold with_random in Hraise.
    destruct (decide (0 ≤ n ≤ Z.of_nat (length (QuestionBank.questions bank)))%Z)
      as [Hin|Hout].
    + destruct (random_sample_in_range _ n (w_random w) Hin)
        as (positions & sampled & g' & Hs & _).
      by rewrite Hs in Hraise.
    + rewrite random_sample_out_of_range in Hraise by done.
      injection Hraise as Hmsg _.
      by destruct (capacity_msg_not_sample_negative n' size').
Qed.
End sampling.

(** ** QuestionBank: loading *)

Section constructing.
Context {rng : Type}.
Implicit Types (w : world rng) (r : Question.record).

(** [Question(data)] returns a fresh question when [data] is a [dict]
    with the four subscripted keys; otherwise it raises: [KeyError] for
    the first key a [dict] lacks, [TypeError] on a value that is no
    [dict]. *)
Lemma Question_init_cases {S} r (s : S) :
  (lacks_required_key r
   ∧ ∃ e, Question.__init__ r s = (Raise e, s)
          ∧ ((∃ key, first_missing_key r = Some key ∧ e = KeyError key)
             ∨ (∃ ty, r = NotDict ty ∧ e = TypeError (not_subscriptable ty))))
  ∨ (¬ lacks_required_key r
     ∧ ∃ q, Question.__init__ r s = (Ok q, s)
            ∧ Question._shuffled_indices q = None).
Proof.
  destruct r as [r|ty].
  2:{ left. split; [done|]. eexists. split; [done|]. right. by eexists. }
  unfold lacks_required_key, first_missing_key, Question.__init__.
  destruct r as [[text|] points [type|] [choices|] [correct|] id]; simpl;
    first [ left; split; [tauto|]; eexists; split; [reflexivity|];
            left; eexists; split; reflexivity
          | right; split; [intros [?|[?|[?|?]]]; done|]; eexists; split; reflexivity ].
Qed.

Lemma Question_init_valid {S} r (s s' : S) q :
  Question.__init__ r s = (Ok q, s') → cache_valid q.
Proof.
  destruct (Question_init_cases r s) as [(_ & e & -> & _)|(_ & q' & -> & Hnone)];
    [done|].
  intros [= <- _]. unfold cache_valid. by rewrite Hnone.
Qed.

(** A list with a defective element splits at the first one. *)
Lemma first_defect {A} (P : A → Prop) `{!∀ x, Decision (P x)} (l : list A) :
  Exists P l →
  ∃ good x rest, l = good ++ x :: rest ∧ Forall (λ y, ¬ P y) good ∧ P x.
Proof.
  induction l as [|y l IH]; intros Hex.
  { by apply Exists_nil in Hex. }
  destruct (decide (P y)) as [Hy|Hy].
  { by exists [], y, l. }
  apply Exists_cons in Hex as [?|Hex]; [done|].
  destruct (IH Hex) as (good & x & rest & -> & Hgood & Hx).
  exists (y :: good), x, rest. split; [done|]. split; [|done].
  by constructor.
Qed.

(** When every record has its keys, one object per record is created, at
    the next free positions of the store, in the order of the records. *)
Lemma construct_all_succeeds records : ∀ w,
  Forall (λ r, ¬ lacks_required_key r) records →
  ∃ objs,
    comprehension construct records w
    = (Ok (seq (length (w_objects w)) (length records)),
       set_objects (w_objects w ++ objs) w)
    ∧ length objs = length records
    ∧ Forall cache_valid objs.
Proof.
  induction records as [|r records IH]; intros w Hall.
  { exists []. split; [|done]. simpl. unfold mret, M_ret.
    rewrite app_nil_r. by destruct w. }
  apply Forall_cons in Hall as [Hr Hall].
  cbn [comprehension]. unfold mbind at 1, M_bind at 1.
  unfold construct at 1. unfold mbind at 1, M_bind at 1.
  destruct (Question_init_cases r w) as [(Hbad & _)|(_ & q & Hq & Hnone)]; [done|].
  rewrite Hq. unfold new at 1.
  destruct (IH (set_objects (w_objects w ++ [q]) w) Hall) as (objs & Hrest & Hlen & Hvalid).
  unfold mbind at 1, M_bind at 1.
  rewrite Hrest. exists (q :: objs). split_and!.
  - simpl. rewrite length_app. simpl. rewrite Nat.add_1_r.
    unfold mret, M_ret. by rewrite <-app_assoc.
  - simpl. by rewrite Hlen.
  - constructor; [|done]. unfold cache_valid. by rewrite Hnone.
Qed.

(** The list comprehension over the question records stops at the first
    record that lacks a key, with the error of that record. *)
Lemma construct_all_fails_at good r rest : ∀ w,
  Forall (λ r, ¬ lacks_required_key r) good →
  lacks_required_key r →
  ∃ e w',
    comprehension construct (good ++ r :: rest) w = (Raise e, w')
    ∧ ((∃ key, first_missing_key r = Some key ∧ e = KeyError key)
       ∨ (∃ ty, r = NotDict ty ∧ e = TypeError (not_subscriptable ty))).
Proof.
  induction good as [|r0 good IH]; intros w Hgood Hbad.
  { simpl. unfold mbind at 1, M_bind at 1.
    unfold construct at 1. unfold mbind at 1, M_bind at 1.
    destruct (Question_init_cases r w) as [(_ & e & -> & He)|(Hok & _)]; [|done].
    by eexists _, _. }
  apply Forall_cons in Hgood as [Hr0 Hgood].
  change ((r0 :: good) ++ r :: rest) with (r0 :: (good ++ r :: rest)).
  cbn [comprehension]. unfold mbind at 1, M_bind at 1.
  unfold construct at 1. unfold mbind at 1, M_bind at 1.
  destruct (Question_init_cases r0 w) as [(Hbad0 & _)|(_ & q & -> & _)]; [done|].
  unfold new at 1.
  destruct (IH (set_objects (w_objects w ++ [q]) w) Hgood Hbad)
    as (e & w' & Hrest & He).
  unfold mbind at 1, M_bind at 1.
  rewrite Hrest. by eexists _, _.
Qed.

(** The list comprehension raises when a record lacks a key. *)
Lemma construct_all_fails records w :
  Exists lacks_required_key records →
  ∃ e w', comprehension construct records w = (Raise e, w').
Proof.
  intros (good & r & rest & -> & Hgood & Hbad)%first_defect; [|apply _].
  destruct (construct_all_fails_at good r rest w Hgood Hbad) as (e & w' & -> & _).
  by eexists _, _.
Qed.

End constructing.

Section loading.
Context `{RandomSource rng}.
Context (yaml_safe_load : string → option (parsed QuestionBank.dict)).
Implicit Types (w : world rng) (data : QuestionBank.dict).

Lemma QuestionBank_init_unfold yaml_file w :
  QuestionBank.__init__ yaml_safe_load yaml_file w
  = match w_files w yaml_file with
    | inl err => (Raise (OSError err yaml_file), w)
    | inr f =>
        match yaml_safe_load f with
        | None => (Raise YAMLError, w)
        | Some (NotDict ty) => (Raise (TypeError (not_subscriptable ty)), w)
        | Some (Dict data) =>
            match QuestionBank.d_name data with
            | None => (Raise (KeyError "name"), w)
            | Some name =>
                match QuestionBank.d_questions data with
                | None => (Raise (KeyError "questions"), w)
                | Some records =>
                    match comprehension construct records w with
                    | (Ok questions, w') =>
                        (Ok (QuestionBank.mk name questions), w')
                    | (Raise e, w') => (Raise e, w')
                    | (Stuck, w') => (Stuck, w')
                    end
                end
            end
        end
    end.
Proof.
  unfold QuestionBank.__init__, read_file.
  unfold mbind at 1, M_bind at 1.
  destruct (w_files w yaml_file) as [err|f]; [done|].
  unfold mbind at 1, M_bind at 1.
  destruct (yaml_safe_load f) as [[data|ty]|]; [|done..].
  unfold mret at 1, M_ret at 1.
  unfold mbind at 1, M_bind at 1.
  destruct (QuestionBank.d_name data) as [name|]; [|done]. simpl.
  unfold mbind at 1, M_bind at 1.
  destruct (QuestionBank.d_questions data) as [records|]; [|done]. simpl.
  unfold mbind at 1, M_bind at 1.
  by destruct (comprehension construct records w) as [[questions|e|] w'].
Qed.

(** A bank that loads holds each of its questions once, every reference
    denotes an object of the store, and every such object is valid. *)
Lemma QuestionBank_init_wf yaml_file w bank w' :
  QuestionBank.__init__ yaml_safe_load yaml_file w = (Ok bank, w') →
  NoDup (QuestionBank.questions bank)
  ∧ Forall (λ l, ∃ q, w_objects w' !! l = Some q ∧ cache_valid q)
           (QuestionBank.questions bank).
Proof.
  rewrite QuestionBank_init_unfold.
  destruct (w_files w yaml_file) as [err|f]; [done|].
  destruct (yaml_safe_load f) as [[data|ty]|]; [|done..].
  destruct (QuestionBank.d_name data) as [name|]; [|done].
  destruct (QuestionBank.d_questions data) as [records|]; [|done].
  destruct (decide (Exists lacks_required_key records)) as [Hbad|Hgood].
  { destruct (construct_all_fails records w Hbad) as (key & w1 & ->). done. }
  apply not_Exists_Forall in Hgood; [|intros r; apply _].
  destruct (construct_all_succeeds records w Hgood) as (objs & -> & Hlen & Hvalid).
  intros [= <- <-]. simpl. split; [apply NoDup_seq|].
  apply Forall_forall. intros l Hl%elem_of_seq.
  destruct (lookup_lt_is_Some_2 objs (l - length (w_objects w))) as [q Hq]; [lia|].
  exists q. split.
  - rewrite lookup_app_r by lia. done.
  - eapply Forall_lookup_1; done.
Qed.
End loading.

Section loading_claims.
Context `{RandomSource rng}.
Context (yaml_safe_load : string → option (parsed QuestionBank.dict)).
Implicit Types (w : world rng) (data : QuestionBank.dict).

(** C4. Loading a bank raises an error of the data format category when
    the file cannot be opened ([OSError]), when it cannot be parsed
    ([yaml.YAMLError]), and when what it parses to lacks a required
    field: the bank name, the question list or, in any question record,
    one of [text], [type], [choices], [correct_answers]. A field is
    lacking from a [dict] without the key, where the subscript raises
    [KeyError] for that key, and from a value that is no [dict] at all
    (an empty file loads as [None]), where the subscript raises
    [TypeError]. The error is that of the first defect: the name before
    the question list, the question list before the records, and the
    records in file order, each by the first key it lacks. A file with a
    name and no [questions] key raises [KeyError('questions')]. *)
Theorem C4_load_fails_with_DataFormatError yaml_file w :
  (∃ err, w_files w yaml_file = inl err)
  ∨ (∃ f, w_files w yaml_file = inr f ∧ yaml_safe_load f = None)
  ∨ (∃ f ty, w_files w yaml_file = inr f ∧ yaml_safe_load f = Some (NotDict ty))
  ∨ (∃ f data,
       w_files w yaml_file = inr f ∧ yaml_safe_load f = Some (Dict data)
       ∧ (QuestionBank.d_name data = None
          ∨ QuestionBank.d_questions data = None
          ∨ ∃ records, QuestionBank.d_questions data = Some records
                       ∧ Exists lacks_required_key records)) →
  ∃ e w',
    QuestionBank.__init__ yaml_safe_load yaml_file w = (Raise e, w')
    ∧ DataFormatError e
    ∧ (∀ err, w_files w yaml_file = inl err → e = OSError err yaml_file)
    ∧ (∀ f, w_files w yaml_file = inr f → yaml_safe_load f = None →
         e = YAMLError)
    ∧ (∀ f ty,
         w_files w yaml_file = inr f → yaml_safe_load f = Some (NotDict ty) →
         e = TypeError (not_subscriptable ty))
    ∧ (∀ f data,
         w_files w yaml_file = inr f → yaml_safe_load f = Some (Dict data) →
         QuestionBank.d_name data = None →
         e = KeyError "name")
    ∧ (∀ f data name,
         w_files w yaml_file = inr f → yaml_safe_load f = Some (Dict data) →
         QuestionBank.d_name data = Some name →
         QuestionBank.d_questions data = None →
         e = KeyError "questions")
    ∧ (∀ f data name good r rest,
         w_files w yaml_file = inr f → yaml_safe_load f = Some (Dict data) →
         QuestionBank.d_name data = Some name →
         QuestionBank.d_questions data = Some (good ++ r :: rest) →
         Forall (λ r, ¬ lacks_required_key r) good →
         lacks_required_key r →
         (∃ key, first_missing_key r = Some key ∧ e = KeyError key)
         ∨ (∃ ty, r = NotDict ty ∧ e = TypeError (not_subscriptable ty))).
Proof.
  rewrite QuestionBank_init_unfold.
  intros [(err & Herr)|[(f & Hf & Hparse)|[(f & ty & Hf & Hparse)
         |(f & data & Hf & Hparse & Hmissing)]]].
  - rewrite Herr. eexists _, _. split; [done|]. split; [done|].
    split_and!; intros; congruence.
  - rewrite Hf, Hparse. eexists _, _. split; [done|]. split; [done|].
    split_and!; intros; congruence.
  - rewrite Hf, Hparse. eexists _, _. split; [done|].
    split; [by eexists|]. split_and!; intros; congruence.
  - rewrite Hf, Hparse.
    destruct (QuestionBank.d_name data) as [name|] eqn:Hname.
    2:{ eexists _, _. split; [done|]. split; [done|].
        split_and!; intros; congruence. }
    destruct (QuestionBank.d_questions data) as [records|] eqn:Hrecords.
    2:{ eexists _, _. split; [done|]. split; [done|].
        split_and!; intros; congruence. }
    destruct Hmissing as [?|[?|(records' & [= <-] & Hbad)]]; [done..|].
    apply first_defect in Hbad as (good & r & rest & -> & Hgood & Hr); [|apply _].
    destruct (construct_all_fails_at good r rest w Hgood Hr)
      as (e & w' & Hfail & He).
    rewrite Hfail. exists e, w'. split; [done|]. split.
    { destruct He as [(key & _ & ->)|(ty & _ & ->)]; [done|by eexists]. }
    split_and!; try (intros; congruence).
    intros f' data' name' good' r' rest' Hf' Hparse' Hname' Hrecords' Hgood' Hr'.
    assert (data' = data) as -> by congruence.
    assert (good' ++ r' :: rest' = good ++ r :: rest) as Heq by congruence.
    destruct (construct_all_fails_at good' r' rest' w Hgood' Hr')
      as (e' & w'' & Hfail' & He').
    rewrite Heq, Hfail in Hfail'. by simplify_eq.
Qed.
End loading_claims.

(** ** ExamGenerator *)

Section generating.
Context `{RandomSource rng}.
Implicit Types (self : ExamGenerator.t) (w : world rng).

Lemma for_each_app {S A B} (xs ys : list A) (body : B → A → M S B) acc (s : S) :
  for_each (xs ++ ys) body acc s
  = match for_each xs body acc s with
    | (Ok acc', s') => for_each ys body acc' s'
    | (Raise e, s') => (Raise e, s')
    | (Stuck, s') => (Stuck, s')
    end.
Proof.
  revert acc s. induction xs as [|x xs IH]; intros acc s; [done|].
  cbn [app for_each]. unfold mbind, M_bind.
  destruct (body acc x s) as [[acc'|e|] s']; [apply IH|done..].
Qed.

Lemma generate_preamble_unfold self version w :
  ExamGenerator._generate_preamble self version w
  = match ExamGenerator.truthy (ExamGenerator.preamble_file self) with
    | Some path =>
        match w_files w path with
        | inr template =>
            (Ok (str_replace ExamGenerator.placeholder (str version) template), w)
        | inl ENOENT =>
            (Ok (ExamGenerator.default_preamble version),
             mk_world (w_random w) (w_objects w) (w_files w)
                      (w_stdout w ++ [ExamGenerator.warning_msg path]))
        | inl err => (Raise (OSError err path), w)
        end
    | None => (Ok (ExamGenerator.default_preamble version), w)
    end.
Proof.
  unfold ExamGenerator._generate_preamble.
  destruct (ExamGenerator.truthy _) as [path|]; [|done].
  unfold try_except_FileNotFoundError, read_file, mbind, M_bind.
  destruct (w_files w path) as [[]|template]; done.
Qed.

Lemma sample_selection_absent self acc bank_name count w :
  ExamGenerator.banks self !! bank_name = None →
  ExamGenerator.sample_selection self acc (bank_name, count) w
  = (Raise (ValueError (ExamGenerator.not_found_msg bank_name)), w).
Proof. intros Hnone. unfold ExamGenerator.sample_selection. by rewrite Hnone. Qed.

Lemma sample_selection_present self acc bank_name count bank w :
  ExamGenerator.banks self !! bank_name = Some bank →
  ExamGenerator.sample_selection self acc (bank_name, count) w
  = match QuestionBank.sample_questions bank count w with
    | (Ok questions, w') => (Ok (acc ++ questions), w')
    | (Raise e, w') => (Raise e, w')
    | (Stuck, w') => (Stuck, w')
    end.
Proof.
  intros Hsome. unfold ExamGenerator.sample_selection. rewrite Hsome.
  unfold mbind, M_bind.
  by destruct (QuestionBank.sample_questions bank count w) as [[questions|e|] w'].
Qed.

Lemma sample_questions_not_Stuck bank n w :
  (QuestionBank.sample_questions bank n w).1 ≠ Stuck.
Proof.
  unfold QuestionBank.sample_questions. case_decide; [done|].
  unfold with_random.
  destruct (decide (0 ≤ n ≤ Z.of_nat (length (QuestionBank.questions bank)))%Z)
    as [Hin|Hout].
  - destruct (random_sample_in_range _ n (w_random w) Hin)
      as (positions & sampled & g' & -> & _). done.
  - by rewrite random_sample_out_of_range.
Qed.

Lemma sample_selection_servable self acc selection w :
  servable self selection →
  ∃ questions g',
    ExamGenerator.sample_selection self acc selection w
    = (Ok (acc ++ questions), set_random g' w).
Proof.
  destruct selection as [bank_name count]. intros (bank & Hbank & Hcount).
  simpl in *.
  pose proof (sample_selection_present self acc bank_name count bank w Hbank) as Hsel.
  unfold QuestionBank.sample_questions in Hsel.
  rewrite decide_False in Hsel by lia. unfold with_random in Hsel.
  destruct (random_sample_in_range _ count (w_random w) Hcount)
    as (positions & sampled & g' & Hs & _).
  rewrite Hs in Hsel. by exists sampled, g'.
Qed.

Lemma sample_selection_not_Stuck self acc selection w :
  (ExamGenerator.sample_selection self acc selection w).1 ≠ Stuck.
Proof.
  destruct selection as [bank_name count].
  destruct (ExamGenerator.banks self !! bank_name) as [bank|] eqn:Hbank.
  - rewrite (sample_selection_present _ _ _ _ _ _ Hbank).
    pose proof (sample_questions_not_Stuck bank count w) as Hns.
    by destruct (QuestionBank.sample_questions bank count w) as [[questions|e|] w'].
  - by rewrite sample_selection_absent.
Qed.

(** The entries that can be served are sampled one after the other; only
    [random] changes. *)
Lemma sampling_served self served : ∀ acc w,
  Forall (servable self) served →
  ∃ acc' g',
    for_each served (ExamGenerator.sample_selection self) acc w
    = (Ok acc', set_random g' w).
Proof.
  induction served as [|selection served IH]; intros acc w Hall.
  { exists acc, (w_random w). by destruct w. }
  apply Forall_cons in Hall as [Hfirst Hall].
  destruct (sample_selection_servable self acc selection w Hfirst)
    as (questions & g1 & Hsel).
  destruct (IH (acc ++ questions) (set_random g1 w) Hall) as (acc' & g' & Hrest).
  exists acc', g'. cbn [for_each]. unfold mbind, M_bind.
  by rewrite Hsel, Hrest.
Qed.

(** The loop raises when some entry names a bank that is not loaded. *)
Lemma sampling_raises self selections : ∀ acc w bank_name count,
  (bank_name, count) ∈ selections →
  ExamGenerator.banks self !! bank_name = None →
  ∃ e w', for_each selections (ExamGenerator.sample_selection self) acc w
          = (Raise e, w').
Proof.
  induction selections as [|selection selections IH];
    intros acc w bank_name count Hin Hnone.
  { by apply elem_of_nil in Hin. }
  cbn [for_each]. unfold mbind, M_bind.
  pose proof (sample_selection_not_Stuck self acc selection w) as Hns.
  apply elem_of_cons in Hin as [<-|Hin].
  { rewrite sample_selection_absent by done. by eexists _, _. }
  destruct (ExamGenerator.sample_selection self acc selection w)
    as [[acc'|e|] w'] eqn:Hsel; [|by eexists _, _|done].
  by apply (IH acc' w' bank_name count).
Qed.

Lemma generate_exam_unfold self selections version w :
  ExamGenerator.generate_exam self selections version w
  = match ExamGenerator._generate_preamble self version w with
    | (Ok latex, w0) =>
        match for_each selections (ExamGenerator.sample_selection self) [] w0 with
        | (Ok all_questions, w1) =>
            match for_each all_questions ExamGenerator.render_question
                    (latex +:+ "\begin{questions}" +:+ nl) w1 with
            | (Ok latex', w2) =>
                (Ok ((latex' +:+ "\end{questions}" +:+ nl) +:+ "\end{document}"), w2)
            | (Raise e, w2) => (Raise e, w2)
            | (Stuck, w2) => (Stuck, w2)
            end
        | (Raise e, w1) => (Raise e, w1)
        | (Stuck, w1) => (Stuck, w1)
        end
    | (Raise e, w0) => (Raise e, w0)
    | (Stuck, w0) => (Stuck, w0)
    end.
Proof.
  unfold ExamGenerator.generate_exam. unfold mbind at 1, M_bind at 1.
  destruct (ExamGenerator._generate_preamble self version w) as [[latex|e|] w0];
    [|done..].
  unfold mbind at 1, M_bind at 1.
  destruct (for_each selections _ [] w0) as [[all_questions|e|] w1]; [|done..].
  unfold mbind at 1, M_bind at 1.
  by destruct (for_each all_questions _ _ w1) as [[latex'|e|] w2].
Qed.

Lemma generate_preamble_not_Stuck self version w :
  (ExamGenerator._generate_preamble self version w).1 ≠ Stuck.
Proof.
  rewrite generate_preamble_unfold.
  destruct (ExamGenerator.truthy _) as [path|]; [|done].
  by destruct (w_files w path) as [[]|template].
Qed.
End generating.

(** ** [str.replace] *)

Section replace.
Implicit Types (old new s p : string).

Lemma startswith_app old s : startswith old (old +:+ s) = true.
Proof.
  induction old as [|c old IH]; [done|].
  rewrite append_cons. simpl. by rewrite decide_True.
Qed.

Lemma startswith_app_false old u v :
  startswith old u = false → String.length old ≤ String.length u →
  startswith old (u +:+ v) = false.
Proof.
  revert u. induction old as [|a old IH]; intros [|b u]; simpl; try done; try lia.
  intros Hfalse Hlen.
  case_decide; [|done]. apply IH; [done|lia].
Qed.

Lemma find_cons_S old c s n :
  find old (String c s) = Some (S n) →
  startswith old (String c s) = false ∧ find old s = Some n.
Proof.
  cbn [find]. destruct (startswith old (String c s)); [done|].
  destruct (find old s) as [m|]; simpl; [|done]. by intros [= ->].
Qed.

Lemma find_cons_None old c s :
  find old (String c s) = None →
  startswith old (String c s) = false ∧ find old s = None.
Proof.
  cbn [find]. destruct (startswith old (String c s)); [done|].
  by destruct (find old s).
Qed.

Lemma replace_from_skip old new a s :
  replace_from old new (String.length a) (a +:+ s) = replace_from old new 0 s.
Proof.
  induction a as [|c a IH]; [by destruct s|].
  rewrite append_cons. simpl. apply IH.
Qed.

(** At an occurrence, [new] is emitted and the scan resumes after it. *)
Lemma str_replace_at old new s :
  old ≠ "" →
  str_replace old new (old +:+ s) = new +:+ str_replace old new s.
Proof.
  intros Hne. unfold str_replace. destruct old as [|c old]; [done|].
  rewrite append_cons. cbn [replace_from].
  rewrite <-append_cons, startswith_app.
  simpl String.length.
  replace (S (String.length old) - 1) with (String.length old) by lia.
  by rewrite replace_from_skip.
Qed.

(** Before the first occurrence the text is copied. *)
Lemma str_replace_before old new p s :
  find old (p +:+ old) = Some (String.length p) →
  str_replace old new (p +:+ old +:+ s) = p +:+ str_replace old new (old +:+ s).
Proof.
  unfold str_replace. induction p as [|c p IH]; [done|].
  rewrite !append_cons. simpl String.length.
  intros [Hstart Hfind]%find_cons_S.
  cbn [replace_from].
  pose proof (startswith_app_false old (String c (p +:+ old)) s Hstart) as Hsw.
  rewrite append_cons, append_assoc in Hsw. rewrite Hsw.
  - f_equal. by apply IH.
  - simpl. rewrite length_append. lia.
Qed.

(** A text without occurrence is left as it is. *)
Lemma str_replace_none old new p :
  find old p = None → str_replace old new p = p.
Proof.
  unfold str_replace. induction p as [|c p IH]; [done|].
  intros [Hstart Hfind]%find_cons_None.
  cbn [replace_from]. rewrite Hstart. f_equal. by apply IH.
Qed.

(** Replacing [old] by [new] turns the pieces joined by [old] into the
    same pieces joined by [new]. *)
Lemma str_replace_join old new parts :
  old ≠ "" → separated_by old parts →
  str_replace old new (join old parts) = join new parts.
Proof.
  intros Hne. induction parts as [|p parts IH]; [done|].
  destruct parts as [|p' parts].
  - simpl. apply str_replace_none.
  - intros [Hfirst Hrest].
    change (join old (p :: p' :: parts)) with (p +:+ old +:+ join old (p' :: parts)).
    change (join new (p :: p' :: parts)) with (p +:+ new +:+ join new (p' :: parts)).
    rewrite str_replace_before by done.
    rewrite str_replace_at by done.
    by rewrite IH.
Qed.
End replace.

(** *** Every text is its pieces *)

Section split.
Implicit Types (sep s : string).

Lemma split_from_skip sep a s :
  split_from sep (String.length a) (a +:+ s) = split_from sep 0 s.
Proof.
  induction a as [|c a IH]; [by destruct s|].
  rewrite append_cons. simpl. apply IH.
Qed.

Lemma startswith_true_app sep s :
  startswith sep s = true → ∃ rest, s = sep +:+ rest.
Proof.
  revert s. induction sep as [|a sep IH]; intros s; [by exists s|].
  destruct s as [|b s]; simpl; [done|]. case_decide; [|done]. subst.
  intros (rest & ->)%IH. by exists rest.
Qed.

Lemma startswith_app_long sep u v :
  String.length sep ≤ String.length u →
  startswith sep (u +:+ v) = startswith sep u.
Proof.
  revert u. induction sep as [|a sep IH]; intros [|b u]; simpl; try done; try lia.
  intros Hlen. case_decide; [|done]. apply IH. lia.
Qed.

Lemma str_split_at sep s :
  sep ≠ "" → str_split sep (sep +:+ s) = "" :: str_split sep s.
Proof.
  intros Hne. unfold str_split. destruct sep as [|c sep]; [done|].
  rewrite append_cons. cbn [split_from].
  rewrite <-append_cons, startswith_app.
  simpl String.length.
  replace (S (String.length sep) - 1) with (String.length sep) by lia.
  rewrite split_from_skip. by destruct (split_from _ 0 s).
Qed.

Lemma str_split_cons sep c s :
  startswith sep (String c s) = false →
  ∃ p ps, str_split sep s = p :: ps
          ∧ str_split sep (String c s) = String c p :: ps.
Proof.
  intros Hsw. unfold str_split. cbn [split_from]. rewrite Hsw.
  destruct (split_from sep 0 s) as [p ps]. by exists p, ps.
Qed.

Lemma join_cons_head sep c p ps :
  join sep (String c p :: ps) = String c (join sep (p :: ps)).
Proof. by destruct ps. Qed.

Lemma join_split sep s : sep ≠ "" → join sep (str_split sep s) = s.
Proof.
  intros Hne. induction (Nat.lt_wf_0_projected String.length s) as [s _ IH].
  destruct s as [|c s]; [done|].
  destruct (startswith sep (String c s)) eqn:Hsw.
  - destruct (startswith_true_app _ _ Hsw) as (rest & Heq). rewrite Heq.
    rewrite str_split_at by done.
    assert (∃ p ps, str_split sep rest = p :: ps) as (p & ps & Hsplit).
    { unfold str_split. destruct (split_from sep 0 rest). by eexists _, _. }
    rewrite Hsplit.
    change (join sep ("" :: p :: ps)) with ("" +:+ sep +:+ join sep (p :: ps)).
    rewrite <-Hsplit, IH; [done|].
    rewrite Heq, length_append. destruct sep; [done|]. simpl. lia.
  - destruct (str_split_cons sep c s Hsw) as (p & ps & Hsplit & ->).
    rewrite join_cons_head, <-Hsplit, IH; [done|]. simpl. lia.
Qed.

Lemma separated_split sep s : sep ≠ "" → separated_by sep (str_split sep s).
Proof.
  intros Hne. induction (Nat.lt_wf_0_projected String.length s) as [s _ IH].
  destruct s as [|c s].
  { simpl. destruct sep; [done|]. done. }
  destruct (startswith sep (String c s)) eqn:Hsw.
  - destruct (startswith_true_app _ _ Hsw) as (rest & Heq). rewrite Heq.
    rewrite str_split_at by done.
    assert (∃ p ps, str_split sep rest = p :: ps) as (p & ps & Hsplit).
    { unfold str_split. destruct (split_from sep 0 rest). by eexists _, _. }
    rewrite Hsplit. split.
    + rewrite append_nil_l. simpl String.length.
      pose proof (startswith_app sep "") as Hself. rewrite append_nil_r in Hself.
      destruct sep; [done|]. cbn [find]. by rewrite Hself.
    + rewrite <-Hsplit. apply IH.
      rewrite Heq, length_append. destruct sep; [done|]. simpl. lia.
  - destruct (str_split_cons sep c s Hsw) as (p & ps & Hsplit & ->).
    pose proof (IH s ltac:(simpl; lia)) as Hrest. rewrite Hsplit in Hrest.
    pose proof (join_split sep s Hne) as Hjoin. rewrite Hsplit in Hjoin.
    destruct ps as [|p' ps].
    + simpl in Hjoin. subst p. simpl in Hrest. simpl.
      cbn [find]. by rewrite Hsw, Hrest.
    + destruct Hrest as [Hfirst Hrest]. split; [|done].
      rewrite append_cons. cbn [find].
      change (join sep (p :: p' :: ps)) with (p +:+ sep +:+ join sep (p' :: ps)) in Hjoin.
      rewrite <-Hjoin, <-append_assoc, <-append_cons in Hsw.
      rewrite startswith_app_long in Hsw.
      2:{ simpl. rewrite length_append. lia. }
      rewrite Hsw, Hfirst. done.
Qed.
End split.

(** *** No occurrence is left *)

Section replace_leaves_none.
Implicit Types (old new s : string).
Variables (old new : string).
Hypothesis old_nonempty : old ≠ "".
Hypothesis new_nonempty : new ≠ "".
(** No character of [new] occurs in [old]. *)
Hypothesis new_foreign : all_chars (λ c, negb (char_in c old)) new = true.

Lemma startswith_char_in y c s :
  startswith y (String c s) = true → y = "" ∨ char_in c y = true.
Proof.
  destruct y as [|a y]; [by left|]. simpl. case_decide; [|done].
  subst. intros _. right. by rewrite bool_decide_true.
Qed.

Lemma startswith_foreign c s : char_in c old = false → startswith old (String c s) = false.
Proof using old_nonempty.
  intros Hc. destruct (startswith old (String c s)) eqn:Hsw; [|done].
  apply startswith_char_in in Hsw as [?|?]; congruence.
Qed.

Lemma new_head_foreign : ∃ n new', new = String n new' ∧ char_in n old = false.
Proof using new_nonempty new_foreign.
  destruct new as [|n new']; [done|]. exists n, new'. split; [done|].
  simpl in new_foreign. apply andb_true_iff in new_foreign as [Hn _].
  by apply negb_true_iff in Hn.
Qed.

Lemma startswith_new_false s : startswith old (new +:+ s) = false.
Proof using old_nonempty new_nonempty new_foreign.
  destruct new_head_foreign as (n & new' & -> & Hn).
  rewrite append_cons. by apply startswith_foreign.
Qed.

Lemma contains_new_app s : contains old (new +:+ s) = contains old s.
Proof using old_nonempty new_foreign.
  clear new_nonempty. revert new_foreign.
  induction new as [|n new' IH]; [done|]. simpl all_chars.
  intros [Hn Hrest]%andb_true_iff. apply negb_true_iff in Hn.
  rewrite append_cons. cbn [contains].
  rewrite startswith_foreign by done. by rewrite IH.
Qed.

(** A prefix of the result made of characters of [old] is a prefix of
    the text. *)
Lemma startswith_replaced y : ∀ s,
  all_chars (λ c, char_in c old) y = true →
  startswith y (str_replace old new s) = true → startswith y s = true.
Proof using old_nonempty new_nonempty new_foreign.
  unfold str_replace.
  induction y as [|a y IH]; intros s Hy; [done|].
  simpl in Hy. apply andb_true_iff in Hy as [Ha Hy].
  destruct s as [|b s]; [done|].
  cbn [replace_from]. destruct (startswith old (String b s)) eqn:Hocc.
  - destruct new_head_foreign as (n & new' & Hnew & Hn).
    replace (new +:+ replace_from old new (String.length old - 1) s)
      with (String n (new' +:+ replace_from old new (String.length old - 1) s))
      by (by rewrite Hnew).
    simpl. case_decide; [|done]. congruence.
  - simpl. case_decide; [|done]. by apply IH.
Qed.

Lemma all_chars_self s : all_chars (λ c, char_in c s) s = true.
Proof.
  enough (∀ t, all_chars (λ c, char_in c (t +:+ s)) s = true) as Hgen
    by apply (Hgen "").
  induction s as [|c s IH]; intros t; [done|]. simpl. apply andb_true_iff. split.
  - induction t as [|d t IHt]; simpl.
    + by rewrite bool_decide_true.
    + by rewrite IHt, orb_true_r.
  - specialize (IH (t +:+ String c "")).
    by rewrite append_assoc in IH.
Qed.

Lemma replace_from_leaves_none s : ∀ skip,
  contains old (replace_from old new skip s) = false.
Proof using old_nonempty new_nonempty new_foreign.
  induction s as [|c s IH]; intros skip.
  { simpl. destruct old; [done|]. done. }
  cbn [replace_from]. destruct skip as [|k]; [|apply IH].
  destruct (startswith old (String c s)) eqn:Hocc.
  - rewrite contains_new_app. apply IH.
  - cbn [contains]. rewrite IH, orb_false_r.
    destruct (startswith old (String c (replace_from old new 0 s))) eqn:Hsw; [|done].
    pose proof (startswith_replaced old (String c s) (all_chars_self old)) as Hp.
    unfold str_replace in Hp. cbn [replace_from] in Hp. rewrite Hocc in Hp.
    specialize (Hp Hsw). congruence.
Qed.

Lemma str_replace_leaves_none s : contains old (str_replace old new s) = false.
Proof using old_nonempty new_nonempty new_foreign.
  apply replace_from_leaves_none.
Qed.
End replace_leaves_none.

(** ** [str] of an integer *)

Section str_int.
Variable P : ascii → bool.
Hypothesis P_digit : ∀ d, P (pretty_N_char d) = true.
Hypothesis P_dash : P "-"%char = true.

Lemma pretty_N_go_chars x : ∀ s,
  all_chars P s = true → all_chars P (pretty_N_go x s) = true.
Proof using P_digit.
  induction (N.lt_wf_0 x) as [x _ IH]. intros s Hs.
  destruct (decide (0 < x)%N) as [Hpos|Hzero].
  - rewrite pretty_N_go_step by done.
    apply IH; [by apply N.div_lt|]. simpl. by rewrite P_digit.
  - assert (x = 0%N) as -> by lia. by rewrite pretty_N_go_0.
Qed.

Lemma pretty_N_chars (x : N) : all_chars P (pretty x) = true.
Proof using P_digit.
  unfold pretty, pretty_N. case_decide.
  - simpl. rewrite andb_true_r. apply (P_digit 0).
  - by apply pretty_N_go_chars.
Qed.

Lemma str_chars (z : Z) : all_chars P (str z) = true.
Proof using P_digit P_dash.
  unfold str, pretty, pretty_Z. destruct z as [|p|p].
  - simpl. rewrite andb_true_r. apply (P_digit 0).
  - apply pretty_N_chars.
  - rewrite append_cons. simpl. rewrite P_dash. apply pretty_N_chars.
Qed.
End str_int.

Lemma pretty_N_go_length x : ∀ s,
  String.length s ≤ String.length (pretty_N_go x s).
Proof.
  induction (N.lt_wf_0 x) as [x _ IH]. intros s.
  destruct (decide (0 < x)%N) as [Hpos|Hzero].
  - rewrite pretty_N_go_step by done.
    etrans; [|apply IH; by apply N.div_lt]. simpl. lia.
  - assert (x = 0%N) as -> by lia. by rewrite pretty_N_go_0.
Qed.

Lemma pretty_N_nonempty (x : N) : pretty x ≠ "".
Proof.
  unfold pretty, pretty_N. case_decide; [done|].
  rewrite pretty_N_go_step by lia.
  intros Hempty.
  pose proof (pretty_N_go_length (x `div` 10)
                (String (pretty_N_char (x `mod` 10)) "")) as Hlen.
  rewrite Hempty in Hlen. simpl in Hlen. lia.
Qed.

Lemma str_nonempty (z : Z) : str z ≠ "".
Proof.
  unfold str, pretty, pretty_Z. destruct z as [|p|p]; [done| |done].
  apply pretty_N_nonempty.
Qed.

Lemma str_foreign_to_placeholder (z : Z) :
  all_chars (λ c, negb (char_in c ExamGenerator.placeholder)) (str z) = true.
Proof.
  apply str_chars; [|done].
  intros d. unfold pretty_N_char. by repeat case_match.
Qed.

(** ** ExamGenerator: the claims *)

Section generating_claims.
Context `{RandomSource rng}.
Implicit Types (self : ExamGenerator.t) (w : world rng).

(** C9. With a custom preamble file configured (a non-empty path) and
    readable, [_generate_preamble] returns the text of the file with the
    placeholder replaced by [str(version)], and changes nothing: a text
    that is pieces joined by the placeholder becomes the same pieces joined
    by the version number, in particular for three pieces, that is two
    occurrences; every text is such pieces, those [split] gives; and no
    occurrence of the placeholder is left in the result. *)
Theorem C9_custom_preamble_substitution self version w path template :
  ExamGenerator.preamble_file self = Some path →
  path ≠ "" →
  w_files w path = inr template →
  ExamGenerator._generate_preamble self version w
  = (Ok (str_replace ExamGenerator.placeholder (str version) template), w)
  ∧ (∀ parts,
       separated_by ExamGenerator.placeholder parts →
       template = join ExamGenerator.placeholder parts →
       str_replace ExamGenerator.placeholder (str version) template
       = join (str version) parts)
  ∧ (∀ a b c,
       separated_by ExamGenerator.placeholder [a; b; c] →
       template = a +:+ ExamGenerator.placeholder +:+ b
                    +:+ ExamGenerator.placeholder +:+ c →
       str_replace ExamGenerator.placeholder (str version) template
       = a +:+ str version +:+ b +:+ str version +:+ c)
  ∧ (join ExamGenerator.placeholder (str_split ExamGenerator.placeholder template)
     = template
     ∧ str_replace ExamGenerator.placeholder (str version) template
       = join (str version) (str_split ExamGenerator.placeholder template))
  ∧ contains ExamGenerator.placeholder
      (str_replace ExamGenerator.placeholder (str version) template) = false.
Proof.
  intros Hpath Hne Hfile. split_and!.
  - rewrite generate_preamble_unfold, Hpath.
    destruct path as [|c path]; [done|]. simpl. by rewrite Hfile.
  - intros parts Hparts ->. by apply str_replace_join.
  - intros a b c Hparts ->.
    by apply (str_replace_join _ _ [a; b; c]).
  - by apply join_split.
  - rewrite <-(join_split ExamGenerator.placeholder template) at 1 by done.
    apply str_replace_join; [done|]. by apply separated_split.
  - apply str_replace_leaves_none; [done|apply str_nonempty|].
    apply str_foreign_to_placeholder.
Qed.

(** C5, as amended. [generate_exam] raises whenever the selections name a
    bank that is not loaded. When the preamble is generated, the error is
    decided by the first entry, in the order of the selections, that
    cannot be served: if its bank is not loaded, the error is the
    [ValueError] for the unknown bank; if its bank is loaded and the count
    exceeds its size, the error is the one [sample_questions] raises, as
    it raises it. *)
Theorem C5_first_unservable_selection_decides self version w :
  (∀ selections bank_name count,
     (bank_name, count) ∈ selections →
     ExamGenerator.banks self !! bank_name = None →
     ∃ e w', ExamGenerator.generate_exam self selections version w = (Raise e, w'))
  ∧ (∀ latex w0 served bank_name count rest,
       ExamGenerator._generate_preamble self version w = (Ok latex, w0) →
       Forall (servable self) served →
       (ExamGenerator.banks self !! bank_name = None →
        ∃ e w',
          ExamGenerator.generate_exam self
            (served ++ (bank_name, count) :: rest) version w = (Raise e, w')
          ∧ e = ValueError (ExamGenerator.not_found_msg bank_name)
          ∧ BankNotFoundError e)
       ∧ (∀ bank,
            ExamGenerator.banks self !! bank_name = Some bank →
            (count > Z.of_nat (length (QuestionBank.questions bank)))%Z →
            ∃ e w1,
              QuestionBank.sample_questions bank count w1 = (Raise e, w1)
              ∧ ExamGenerator.generate_exam self
                  (served ++ (bank_name, count) :: rest) version w = (Raise e, w1)
              ∧ CapacityError e)).
Proof.
  split.
  - intros selections bank_name count Hin Hnone.
    rewrite generate_exam_unfold.
    pose proof (generate_preamble_not_Stuck self version w) as Hns.
    destruct (ExamGenerator._generate_preamble self version w)
      as [[latex|e|] w0]; [|by eexists _, _|done].
    destruct (sampling_raises self selections [] w0 bank_name count Hin Hnone)
      as (e & w' & ->).
    by eexists _, _.
  - intros latex w0 served bank_name count rest Hpre Hserved.
    destruct (sampling_served self served [] w0 Hserved) as (acc & g1 & Hloop).
    split.
    + intros Hnone. eexists _, _. split; [|split; [done|by eexists]].
      rewrite generate_exam_unfold, Hpre, for_each_app, Hloop.
      cbn [for_each]. unfold mbind, M_bind.
      by rewrite sample_selection_absent.
    + intros bank Hbank Hcount.
      exists (ValueError (QuestionBank.capacity_msg count
                            (length (QuestionBank.questions bank)))),
        (set_random g1 w0).
      assert (QuestionBank.sample_questions bank count (set_random g1 w0)
              = (Raise (ValueError (QuestionBank.capacity_msg count
                          (length (QuestionBank.questions bank)))),
                 set_random g1 w0)) as Hsample.
      { unfold QuestionBank.sample_questions. by rewrite decide_True. }
      split; [done|]. split; [|by eexists _, _].
      rewrite generate_exam_unfold, Hpre, for_each_app, Hloop.
      cbn [for_each]. unfold mbind, M_bind.
      rewrite (sample_selection_present _ _ _ _ _ _ Hbank).
      by rewrite Hsample.
Qed.
End generating_claims.

(** * The properties at sample inputs *)

Section samples.
Import Sample.

(** C1 at a question with choices A, B, C and the tape [1; 0]. *)
Lemma C1_witness :
  cache_valid q_abc
  ∧ ∃ shuffled correct q' g',
      Question.get_shuffled_choices (q_abc, tape) = (Ok (shuffled, correct), (q', g'))
      ∧ shuffled ≡ₚ Question.choices q_abc
      ∧ ∀ g2, Question.get_shuffled_choices (q', g2)
              = (Ok (shuffled, correct), (q', g2)).
Proof.
  split; [exact I|].
  apply (C1_shuffled_choices_permutation_stable q_abc tape). exact I.
Defined.

(** C6 at a question with a repeated choice and the listed answers A, Z. *)
Lemma C6_witness :
  cache_valid q_multi
  ∧ Question.correct_answers q_multi = Multi ["A"; "Z"]
  ∧ ∃ shuffled shuffled_correct st,
      Question.get_shuffled_choices (q_multi, tape)
      = (Ok (shuffled, Multi shuffled_correct), st)
      ∧ shuffled ≡ₚ Question.choices q_multi
      ∧ (∀ c, c ∈ shuffled_correct ↔ c ∈ ["A"; "Z"] ∧ c ∈ Question.choices q_multi)
      ∧ shuffled_correct = filter (λ c, c ∈ ["A"; "Z"]) shuffled
      ∧ sublist shuffled_correct shuffled
      ∧ (∀ c, c ∈ ["A"; "Z"] →
           length (filter (λ x, x = c) shuffled_correct)
           = length (filter (λ x, x = c) (Question.choices q_multi))).
Proof.
  split; [exact I|]. split; [reflexivity|].
  apply (C6_multi_correct_subsequence q_multi tape ["A"; "Z"]);
    [exact I|reflexivity].
Defined.

(** C8 (amended) at the question with choices A, B, C and the correct
    answer B. *)
Lemma C8_witness :
  cache_valid q_abc
  ∧ Question.correct_answers q_abc = Single "B"
  ∧ NoDup (Question.choices q_abc)
  ∧ "B" ∈ Question.choices q_abc
  ∧ Forall single_line (Question.choices q_abc)
  ∧ ∃ before after ls st,
      Question.to_latex true (q_abc, tape)
      = (Ok (latex_header q_abc +:+ unlines ls +:+ latex_footer), st)
      ∧ text_lines (unlines ls) = ls
      ∧ ls = (String.append "\choice " <$> before)
             ++ ("\correctchoice " +:+ "B")
             :: (String.append "\choice " <$> after)
      ∧ before ++ "B" :: after ≡ₚ Question.choices q_abc
      ∧ (true = false → before ++ "B" :: after = Question.choices q_abc)
      ∧ ("B" ∉ before) ∧ ("B" ∉ after)
      ∧ filter (λ line, marks_correct line = true) ls
        = ["\correctchoice " +:+ "B"]
      ∧ (∀ line, line ∈ ls → line ≠ "\correctchoice " +:+ "B" →
           marks_incorrect line = true ∧ marks_correct line = false).
Proof.
  assert (NoDup (Question.choices q_abc)) as Hnodup.
  { apply (bool_decide_unpack _). vm_compute. exact I. }
  assert ("B" ∈ Question.choices q_abc) as Hin.
  { apply (bool_decide_unpack _). vm_compute. exact I. }
  assert (Forall single_line (Question.choices q_abc)) as Hlines.
  { repeat constructor. }
  split; [exact I|]. split; [reflexivity|]. split; [exact Hnodup|].
  split; [exact Hin|]. split; [exact Hlines|].
  apply (C8_single_correct_one_marked q_abc tape true "B");
    [exact I|reflexivity|exact Hnodup|exact Hin|exact Hlines].
Defined.

(** C8 as stated fails: a choice may hold a line break. With the
    distinct choices [B] and [A], line break, [\correctchoice B] and the
    correct answer [B], the choices block has three lines, with or
    without shuffling, and two of them are marked correct. *)
Lemma C8_counterexample :
  cache_valid q_two_lines
  ∧ Question.correct_answers q_two_lines = Single "B"
  ∧ NoDup (Question.choices q_two_lines)
  ∧ "B" ∈ Question.choices q_two_lines
  ∧ ∃ block st st',
      Question.to_latex false (q_two_lines, tape)
      = (Ok (latex_header q_two_lines +:+ block +:+ latex_footer), st)
      ∧ Question.to_latex true (q_two_lines, tape)
        = (Ok (latex_header q_two_lines +:+ block +:+ latex_footer), st')
      ∧ text_lines block = ["\correctchoice B"; "\choice A"; "\correctchoice B"]
      ∧ filter (λ line, marks_correct line = true) (text_lines block)
        = ["\correctchoice B"; "\correctchoice B"].
Proof.
  split; [exact I|]. split; [reflexivity|].
  split; [apply (bool_decide_unpack _); vm_compute; exact I|].
  split; [apply (bool_decide_unpack _); vm_compute; exact I|].
  exists ("\correctchoice B" +:+ nl +:+ "\choice A" +:+ nl
          +:+ "\correctchoice B" +:+ nl).
  eexists _, _. split_and!; vm_compute; reflexivity.
Qed.

(** C10 at the question tagged [multiple_choice] whose correct answers
    are a list, retagged [multiple_selection]. *)
Lemma C10_witness :
  cache_valid q_multi
  ∧ (Question.get_shuffled_choices (Question.set_type "multiple_selection" q_multi, tape)
     = (let '(r, (q', g')) := Question.get_shuffled_choices (q_multi, tape) in
        (r, (Question.set_type "multiple_selection" q', g')))
     ∧ Question.to_latex true (Question.set_type "multiple_selection" q_multi, tape)
       = (let '(r, (q', g')) := Question.to_latex true (q_multi, tape) in
          (r, (Question.set_type "multiple_selection" q', g')))
     ∧ (∀ listed, Question.correct_answers q_multi = Multi listed →
          ∃ cs st st',
            Question.get_shuffled_choices (q_multi, tape)
            = (Ok (cs, Multi (filter (λ c, c ∈ listed) cs)), st)
            ∧ cs ≡ₚ Question.choices q_multi
            ∧ Question.to_latex true (q_multi, tape)
              = (Ok (latex_header q_multi
                     +:+ unlines ((λ c, (if bool_decide (c ∈ listed)
                                         then "\correctchoice "
                                         else "\choice ") +:+ c)
                                  <$> (if true then cs
                                       else Question.choices q_multi))
                     +:+ latex_footer), st'))
     ∧ (∀ answer, Question.correct_answers q_multi = Single answer →
          ∃ cs st st',
            Question.get_shuffled_choices (q_multi, tape) = (Ok (cs, Single answer), st)
            ∧ cs ≡ₚ Question.choices q_multi
            ∧ Question.to_latex true (q_multi, tape)
              = (Ok (latex_header q_multi
                     +:+ unlines ((λ c, (if bool_decide (c = answer)
                                         then "\correctchoice "
                                         else "\choice ") +:+ c)
                                  <$> (if true then cs
                                       else Question.choices q_multi))
                     +:+ latex_footer), st'))).
Proof.
  split; [exact I|].
  apply (C10_dispatch_on_list_not_tag q_multi tape "multiple_selection" true).
  exact I.
Defined.

(** The rendering of that question: tagged [multiple_choice], it marks
    both occurrences of the listed choice [A]. *)
Example list_semantics_under_single_tag :
  Question.type q_multi = "multiple_choice"
  ∧ ∃ st, Question.to_latex false (q_multi, tape)
          = (Ok (latex_header q_multi
                 +:+ unlines ["\correctchoice A"; "\choice B"; "\choice C";
                              "\correctchoice A"]
                 +:+ latex_footer), st).
Proof. split; [reflexivity|]. eexists. vm_compute. reflexivity. Qed.

(** C7 (amended) at a first call to [get_shuffled_choices] followed by
    a rendering, a use of [random] elsewhere and a second call. *)
Lemma C7_witness :
  cache_valid q_abc
  ∧ ∃ indices q1 g1 q2 g2,
      happen call_get_shuffled_choices (q_abc, tape) = (Ok (), (q1, g1))
      ∧ Question._shuffled_indices q1 = Some indices
      ∧ indices ≡ₚ seq 0 (length (Question.choices q1))
      ∧ run later_events (q1, g1) = (Ok (), (q2, g2))
      ∧ cache_state_of q2 = SHUFFLED
      ∧ (Forall (λ e, is_direct_shuffle e = false) later_events →
         Question._shuffled_indices q2 = Some indices).
Proof.
  split; [exact I|].
  apply (C7_cache_set_by_first_call q_abc tape call_get_shuffled_choices later_events);
    [exact I|right; reflexivity].
Defined.

(** C7 as stated fails: a second direct call to [shuffle_choices] draws
    again. On choices A, B with the tape [0; 1] the first call stores
    [1; 0] and the second call stores [0; 1]. *)
Lemma C7_counterexample :
  ∃ q1 q2 : Question.t,
    cache_valid q_ab
    ∧ cache_state_of q_ab = UNSHUFFLED
    ∧ happen call_shuffle_choices (q_ab, [0; 1]) = (Ok (), (q1, [1]))
    ∧ run [call_shuffle_choices] (q1, [1]) = (Ok (), (q2, []))
    ∧ Question._shuffled_indices q1 = Some [1; 0]
    ∧ Question._shuffled_indices q2 = Some [0; 1]
    ∧ Question._shuffled_indices q2 ≠ Question._shuffled_indices q1.
Proof.
  exists (Question.set_shuffled_indices (Some [1; 0]) q_ab),
         (Question.set_shuffled_indices (Some [0; 1]) q_ab).
  split_and!; try reflexivity; try exact I. discriminate.
Qed.

End samples.

Section samples_in_the_world.
Import Sample.

(** C2 at a bank of three questions, sampling two. *)
Lemma C2_witness :
  (0 ≤ 2 ≤ Z.of_nat (length (QuestionBank.questions midterm)))%Z
  ∧ ∃ sampled positions g',
      QuestionBank.sample_questions midterm 2 w0 = (Ok sampled, set_random g' w0)
      ∧ length sampled = Z.to_nat 2
      ∧ NoDup positions
      ∧ Forall2 (λ i x, QuestionBank.questions midterm !! i = Some x) positions sampled
      ∧ sampled ⊆ QuestionBank.questions midterm
      ∧ (NoDup (QuestionBank.questions midterm) → NoDup sampled)
      ∧ (2%Z = 0%Z → sampled = []).
Proof.
  assert (0 ≤ 2 ≤ Z.of_nat (length (QuestionBank.questions midterm)))%Z as Hn.
  { simpl. lia. }
  split; [exact Hn|].
  apply (C2_sample_questions_distinct midterm 2 w0 Hn).
Defined.

(** C4 at a bank file that has a name and no [questions] key. *)
Lemma C4_witness :
  ((∃ err, w_files w0 "midterm.yaml" = inl err)
   ∨ (∃ f, w_files w0 "midterm.yaml" = inr f ∧ parse f = None)
   ∨ (∃ f ty, w_files w0 "midterm.yaml" = inr f ∧ parse f = Some (NotDict ty))
   ∨ (∃ f data,
        w_files w0 "midterm.yaml" = inr f ∧ parse f = Some (Dict data)
        ∧ (QuestionBank.d_name data = None
           ∨ QuestionBank.d_questions data = None
           ∨ ∃ records, QuestionBank.d_questions data = Some records
                        ∧ Exists lacks_required_key records)))
  ∧ ∃ e w',
      QuestionBank.__init__ parse "midterm.yaml" w0 = (Raise e, w')
      ∧ DataFormatError e
      ∧ (∀ err, w_files w0 "midterm.yaml" = inl err → e = OSError err "midterm.yaml")
      ∧ (∀ f, w_files w0 "midterm.yaml" = inr f → parse f = None →
           e = YAMLError)
      ∧ (∀ f ty,
           w_files w0 "midterm.yaml" = inr f → parse f = Some (NotDict ty) →
           e = TypeError (not_subscriptable ty))
      ∧ (∀ f data,
           w_files w0 "midterm.yaml" = inr f → parse f = Some (Dict data) →
           QuestionBank.d_name data = None →
           e = KeyError "name")
      ∧ (∀ f data name,
           w_files w0 "midterm.yaml" = inr f → parse f = Some (Dict data) →
           QuestionBank.d_name data = Some name →
           QuestionBank.d_questions data = None →
           e = KeyError "questions")
      ∧ (∀ f data name good r rest,
           w_files w0 "midterm.yaml" = inr f → parse f = Some (Dict data) →
           QuestionBank.d_name data = Some name →
           QuestionBank.d_questions data = Some (good ++ r :: rest) →
           Forall (λ r, ¬ lacks_required_key r) good →
           lacks_required_key r →
           (∃ key, first_missing_key r = Some key ∧ e = KeyError key)
           ∨ (∃ ty, r = NotDict ty ∧ e = TypeError (not_subscriptable ty))).
Proof.
  assert (((∃ err, w_files w0 "midterm.yaml" = inl err)
   ∨ (∃ f, w_files w0 "midterm.yaml" = inr f ∧ parse f = None)
   ∨ (∃ f ty, w_files w0 "midterm.yaml" = inr f ∧ parse f = Some (NotDict ty))
   ∨ (∃ f data,
        w_files w0 "midterm.yaml" = inr f ∧ parse f = Some (Dict data)
        ∧ (QuestionBank.d_name data = None
           ∨ QuestionBank.d_questions data = None
           ∨ ∃ records, QuestionBank.d_questions data = Some records
                        ∧ Exists lacks_required_key records)))) as Hdefect.
  { right. right. right.
    exists "name: midterm", (QuestionBank.mk_dict (Some "midterm") None).
    split; [reflexivity|]. split; [reflexivity|]. right. left. reflexivity. }
  split; [exact Hdefect|].
  apply (C4_load_fails_with_DataFormatError parse "midterm.yaml" w0 Hdefect).
Defined.

(** The outcomes of loading the two defective sample files: the file with
    a name and no question list, and the empty file. *)
Example defective_bank_files :
  QuestionBank.__init__ parse "midterm.yaml" w0
  = (Raise (KeyError "questions"), w0)
  ∧ QuestionBank.__init__ parse "empty.yaml" w0
    = (Raise (TypeError "'NoneType' object is not subscriptable"), w0).
Proof. split; reflexivity. Qed.

(** C9 at a template with the placeholder twice, version 7. *)
Lemma C9_witness :
  ExamGenerator.preamble_file generator = Some "preamble.tex"
  ∧ "preamble.tex" ≠ ""
  ∧ w_files w0 "preamble.tex" = inr template
  ∧ ExamGenerator._generate_preamble generator 7 w0
    = (Ok (str_replace ExamGenerator.placeholder (str 7) template), w0)
  ∧ (∀ parts,
       separated_by ExamGenerator.placeholder parts →
       template = join ExamGenerator.placeholder parts →
       str_replace ExamGenerator.placeholder (str 7) template
       = join (str 7) parts)
  ∧ (∀ a b c,
       separated_by ExamGenerator.placeholder [a; b; c] →
       template = a +:+ ExamGenerator.placeholder +:+ b
                    +:+ ExamGenerator.placeholder +:+ c →
       str_replace ExamGenerator.placeholder (str 7) template
       = a +:+ str 7 +:+ b +:+ str 7 +:+ c)
  ∧ (join ExamGenerator.placeholder (str_split ExamGenerator.placeholder template)
     = template
     ∧ str_replace ExamGenerator.placeholder (str 7) template
       = join (str 7) (str_split ExamGenerator.placeholder template))
  ∧ contains ExamGenerator.placeholder
      (str_replace ExamGenerator.placeholder (str 7) template) = false.
Proof.
  assert ("preamble.tex" ≠ "") as Hne by discriminate.
  split; [reflexivity|]. split; [exact Hne|]. split; [reflexivity|].
  apply (C9_custom_preamble_substitution generator 7 w0 "preamble.tex" template);
    [reflexivity|exact Hne|reflexivity].
Defined.

(** The two occurrences of the sample template are replaced. *)
Example preamble_twice :
  separated_by ExamGenerator.placeholder ["Exam "; " (v"; ")"]
  ∧ ExamGenerator._generate_preamble generator 7 w0 = (Ok "Exam 7 (v7)", w0).
Proof. split; [by vm_compute|reflexivity]. Qed.

Example split_overlapping :
  str_split ExamGenerator.placeholder "a%%VERSION%%b%%VERSION%%VERSION%%c"
  = ["a"; "b"; "VERSION%%c"].
Proof. reflexivity. Qed.

(** An occurrence that overlaps a replaced one is no occurrence any more. *)
Example replace_overlapping :
  str_replace ExamGenerator.placeholder (str 7) "a%%VERSION%%VERSION%%b"
  = "a7VERSION%%b".
Proof. reflexivity. Qed.

(** C5 (amended) at selections whose first entry can be served and whose
    second names a bank that is not loaded. *)
Lemma C5_witness :
  ExamGenerator._generate_preamble generator 1 w0 = (Ok "Exam 1 (v1)", w0)
  ∧ Forall (servable generator) [("midterm", 2%Z)]
  ∧ ExamGenerator.banks generator !! "final" = None
  ∧ ∃ e w',
      ExamGenerator.generate_exam generator
        ([("midterm", 2%Z)] ++ ("final", 1%Z) :: []) 1 w0 = (Raise e, w')
      ∧ e = ValueError (ExamGenerator.not_found_msg "final")
      ∧ BankNotFoundError e.
Proof.
  assert (ExamGenerator._generate_preamble generator 1 w0 = (Ok "Exam 1 (v1)", w0))
    as Hpre by reflexivity.
  assert (Forall (servable generator) [("midterm", 2%Z)]) as Hserved.
  { constructor; [|constructor]. exists midterm. split; [reflexivity|]. simpl. lia. }
  assert (ExamGenerator.banks generator !! "final" = None) as Hnone by reflexivity.
  split; [exact Hpre|]. split; [exact Hserved|]. split; [exact Hnone|].
  exact (proj1 (proj2 (C5_first_unservable_selection_decides generator 1 w0)
                  "Exam 1 (v1)" w0 [("midterm", 2%Z)] "final" 1%Z [] Hpre Hserved)
               Hnone).
Defined.

(** C5 as stated fails: the selections name the bank [final], which is
    not loaded, and the call raises the capacity error of the entry
    before it, not the error for the unknown bank. *)
Lemma C5_counterexample :
  ("final", 1%Z) ∈ [("midterm", 5%Z); ("final", 1%Z)]
  ∧ ExamGenerator.banks generator !! "final" = None
  ∧ ExamGenerator.generate_exam generator [("midterm", 5%Z); ("final", 1%Z)] 1 w0
    = (Raise (ValueError "Requested 5 questions but bank only has 3"), w0)
  ∧ CapacityError (ValueError "Requested 5 questions but bank only has 3")
  ∧ ¬ BankNotFoundError (ValueError "Requested 5 questions but bank only has 3").
Proof.
  split_and!.
  - right. left.
  - reflexivity.
  - reflexivity.
  - exists 5%Z, 3. reflexivity.
  - intros (bank_name & Hmsg). unfold ExamGenerator.not_found_msg in Hmsg.
    rewrite append_cons in Hmsg. discriminate Hmsg.
Qed.
End samples_in_the_world.

(** * Further properties *)

(** ** Question: what the methods leave alone *)

Section question_frame.
Context `{RandomSource rng}.
Implicit Types (q : Question.t) (g : rng) (e : event rng).

Lemma comprehension_getitem_state {S A} (l : list A) (indices : list nat) (s : S) :
  (comprehension (getitem l) indices s).2 = s.
Proof.
  induction indices as [|i indices IH]; [done|].
  cbn [comprehension]. unfold mbind at 1, M_bind at 1, getitem at 1.
  destruct (l !! i) as [x|]; [|done].
  unfold mret at 1, M_ret at 1. unfold mbind at 1, M_bind at 1.
  destruct (comprehension (getitem l) indices s) as [[picked|e|] s'] eqn:Hrest;
    simpl in *; by subst.
Qed.

(** With a permutation cached, whatever it holds, the call leaves [self]
    and [random] as they are, also when it raises. *)
Lemma get_shuffled_choices_cached_state q g indices :
  Question._shuffled_indices q = Some indices →
  (Question.get_shuffled_choices (q, g)).2 = (q, g).
Proof.
  intros Hsome. unfold Question.get_shuffled_choices.
  unfold mbind, M_bind, get_state. simpl. rewrite Hsome. simpl. rewrite Hsome.
  pose proof (comprehension_getitem_state (Question.choices q) indices (q, g)) as Hst.
  destruct (comprehension (getitem (Question.choices q)) indices (q, g))
    as [[picked|e|] st]; simpl in *; subst; [|done..].
  by destruct (Question.correct_answers q).
Qed.

Lemma same_question_refl q : same_question q q.
Proof. split; [by destruct q|done]. Qed.

Lemma same_question_set q indices :
  Question._shuffled_indices q = None →
  same_question q (Question.set_shuffled_indices (Some indices) q).
Proof. intros Hnone. split; [done|]. intros idx. by rewrite Hnone. Qed.

Lemma get_shuffled_choices_same q g :
  same_question q (Question.get_shuffled_choices (q, g)).2.1.
Proof.
  destruct (Question._shuffled_indices q) as [cached|] eqn:Hcache.
  - rewrite (get_shuffled_choices_cached_state q g cached Hcache).
    apply same_question_refl.
  - rewrite get_shuffled_choices_fresh by done.
    set (drawn := random_shuffle (seq 0 (length (Question.choices q))) g).
    rewrite (get_shuffled_choices_cached_state
               (Question.set_shuffled_indices (Some drawn.1) q) drawn.2 drawn.1)
      by done.
    by apply same_question_set.
Qed.

Lemma to_latex_state shuffle q g :
  (Question.to_latex shuffle (q, g)).2
  = if shuffle then (Question.get_shuffled_choices (q, g)).2 else (q, g).
Proof.
  rewrite to_latex_unfold. destruct shuffle; [|done].
  by destruct (Question.get_shuffled_choices (q, g)) as [[[cs correct]|e|] st].
Qed.

(** The fields of the object after an event are those before it. *)
Lemma happen_fields e q g :
  (happen e (q, g)).2.1
  = Question.set_shuffled_indices
      (Question._shuffled_indices (happen e (q, g)).2.1) q.
Proof.
  destruct e as [| |shuffle|g2]; simpl.
  - unfold Question.shuffle_choices. by destruct (random_shuffle _ g).
  - unfold mbind, M_bind.
    pose proof (get_shuffled_choices_same q g) as [Hsame _].
    by destruct (Question.get_shuffled_choices (q, g)) as [[r|x|] [q' g']].
  - unfold mbind, M_bind.
    pose proof (to_latex_state shuffle q g) as Hst.
    pose proof (get_shuffled_choices_same q g) as [Hsame _].
    destruct (Question.to_latex shuffle (q, g)) as [[r|x|] [q' g']];
      simpl in *; destruct shuffle; simplify_eq/=;
      first [ by rewrite <-Hst in Hsame | by destruct q ].
  - by destruct q.
Qed.

(** X1. No call of [shuffle_choices], [get_shuffled_choices] or [to_latex],
    in any order and whether a call raises or not, changes the text, the
    points, the type, the choices, the correct answers or the id of a
    question: the object after the calls is the object before them with,
    at most, another cached permutation. *)
Theorem question_fields_never_change (es : list (event rng)) q g :
  (run es (q, g)).2.1
  = Question.set_shuffled_indices
      (Question._shuffled_indices (run es (q, g)).2.1) q.
Proof.
  revert q g. induction es as [|e es IH]; intros q g; [by destruct q|].
  rewrite run_cons. pose proof (happen_fields e q g) as Hstep.
  destruct (happen e (q, g)) as [[[]|x|] [q1 g1]]; simpl in *; [|done..].
  rewrite (IH q1 g1) at 1. rewrite Hstep. done.
Qed.
End question_frame.

(** ** Question: rendering *)

Section question_rendering.
Context `{RandomSource rng}.
Implicit Types (q : Question.t) (g : rng).

Lemma choice_line_expressed (correct : answers) (cs : list string) :
  Question.choice_line (expressed correct cs) <$> cs
  = Question.choice_line correct <$> cs.
Proof. destruct correct; [done|]. apply choice_line_filtered. Qed.

Lemma rendering_set_shuffled_indices cache q indices :
  rendering (Question.set_shuffled_indices cache q) indices = rendering q indices.
Proof. done. Qed.

Lemma reordered_declared (cs : list string) : reordered cs (seq 0 (length cs)) = cs.
Proof.
  unfold reordered. apply list_eq. intros i. rewrite list_lookup_fmap.
  destruct (decide (i < length cs)) as [Hi|Hi].
  - rewrite lookup_seq_lt by done. simpl.
    destruct (lookup_lt_is_Some_2 cs i Hi) as [x Hx]. by rewrite Hx.
  - rewrite lookup_seq_ge by lia. simpl. symmetry. apply lookup_ge_None. lia.
Qed.

(** [to_latex(shuffle=True)] on an object in a valid state. *)
Lemma to_latex_shuffled_spec q g :
  cache_valid q →
  ∃ indices g',
    Question.to_latex true (q, g)
    = (Ok (rendering q indices),
       (Question.set_shuffled_indices (Some indices) q, g'))
    ∧ indices ≡ₚ seq 0 (length (Question.choices q))
    ∧ (∀ cached, Question._shuffled_indices q = Some cached →
         cached = indices ∧ g' = g).
Proof.
  intros Hvalid.
  destruct (get_shuffled_choices_spec q g Hvalid)
    as (indices & g' & Hget & Hperm & Hsame).
  exists indices, g'. split; [|done].
  rewrite to_latex_unfold, Hget. unfold rendering.
  by rewrite choice_line_expressed.
Qed.

(** X2. An object that [Question(data)] returned never makes a method
    raise: every sequence of calls of [shuffle_choices],
    [get_shuffled_choices] and [to_latex] on it runs to the end, and leaves
    it with no cache or with a permutation of the positions of its
    choices. *)
Theorem constructed_question_never_raises {S} (r : Question.record) (s s' : S) q
    (es : list (event rng)) g :
  Question.__init__ r s = (Ok q, s') →
  built_from r q
  ∧ ∃ q' g',
      run es (q, g) = (Ok (), (q', g'))
      ∧ cache_valid q'.
Proof.
  intros Hinit.
  assert (built_from r q) as Hbuilt.
  { destruct r as [r|ty]; [|done].
    unfold Question.__init__ in Hinit.
    destruct r as [[text|] points [type|] [choices|] [correct|] id];
      simpl in Hinit; try done.
    injection Hinit as <- _. by repeat split. }
  split; [done|].
  destruct (run_spec es q g (Question_init_valid r s s' q Hinit))
    as (q' & g' & Hrun & Hvalid & _).
  by exists q', g'.
Qed.

(** X3. Rendering with shuffling is settled by the first rendering: on an
    object in a valid state [to_latex(True)] returns the block of the
    choices in a permutation of their positions and caches it; every later
    [to_latex(True)] returns the same block without touching the object or
    [random]; and [to_latex(False)] on the shuffled object still renders
    the declared order, without touching the cache. *)
Theorem to_latex_settled_by_first_call q g :
  cache_valid q →
  ∃ indices q' g',
    Question.to_latex true (q, g) = (Ok (rendering q indices), (q', g'))
    ∧ indices ≡ₚ seq 0 (length (Question.choices q))
    ∧ (∀ g2, Question.to_latex true (q', g2) = (Ok (rendering q indices), (q', g2)))
    ∧ (∀ g2, Question.to_latex false (q', g2)
             = (Ok (rendering q (seq 0 (length (Question.choices q)))), (q', g2))).
Proof.
  intros Hvalid.
  destruct (to_latex_shuffled_spec q g Hvalid) as (indices & g' & Hlatex & Hperm & _).
  exists indices, (Question.set_shuffled_indices (Some indices) q), g'.
  split_and!; [done..| |].
  - intros g2.
    destruct (to_latex_shuffled_spec (Question.set_shuffled_indices (Some indices) q) g2)
      as (indices2 & g2' & Hlatex2 & _ & Hsame); [done|].
    destruct (Hsame indices eq_refl) as [<- ->].
    by rewrite Hlatex2.
  - intros g2. rewrite to_latex_unfold. simpl. unfold rendering.
    by rewrite reordered_declared.
Qed.
End question_rendering.

(** ** QuestionBank: further sampling behaviour *)

Section sampling_more.
Context `{RandomSource rng}.
Implicit Types (bank : QuestionBank.t) (w : world rng) (self : ExamGenerator.t).

Lemma picked_fmap {A} (d : A) (l : list A) (positions : list nat) (picked : list A) :
  Forall2 (λ i x, l !! i = Some x) positions picked →
  picked = (λ i, default d (l !! i)) <$> positions.
Proof.
  induction 1 as [|i x positions picked Hix _ IH]; [done|].
  simpl. by rewrite Hix, IH.
Qed.

Lemma positions_all {A} (l : list A) (positions : list nat) (picked : list A) :
  NoDup positions → length positions = length l →
  Forall2 (λ i x, l !! i = Some x) positions picked →
  positions ≡ₚ seq 0 (length l).
Proof.
  intros Hnodup Hlen Hpick.
  apply submseteq_length_Permutation; [|by rewrite length_seq, Hlen].
  apply NoDup_submseteq; [done|].
  intros i Hi. apply elem_of_seq.
  apply list_elem_of_lookup_1 in Hi as [k Hk].
  destruct (Forall2_lookup_l _ _ _ _ _ Hpick Hk) as (x & _ & Hx).
  apply lookup_lt_Some in Hx. lia.
Qed.

(** X4. Asking a bank for as many questions as it has returns every
    question of the bank exactly once, in some order. *)
Theorem sample_whole_bank bank w :
  ∃ sampled g',
    QuestionBank.sample_questions bank
      (Z.of_nat (length (QuestionBank.questions bank))) w
    = (Ok sampled, set_random g' w)
    ∧ sampled ≡ₚ QuestionBank.questions bank.
Proof.
  unfold QuestionBank.sample_questions. rewrite decide_False by lia.
  unfold with_random.
  destruct (random_sample_in_range (QuestionBank.questions bank)
              (Z.of_nat (length (QuestionBank.questions bank))) (w_random w))
    as (positions & sampled & g' & Hs & Hlen & Hnodup & Hpick); [lia|].
  rewrite Hs. exists sampled, g'. split; [done|].
  rewrite Nat2Z.id in Hlen.
  rewrite (picked_fmap 0 _ _ _ Hpick).
  apply fmap_lookup_perm. by eapply positions_all.
Qed.

Lemma sample_negative_not_capacity :
  ¬ CapacityError (ValueError sample_negative_msg).
Proof.
  intros (n & size & Hmsg). injection Hmsg as Hmsg.
  by destruct (capacity_msg_not_sample_negative n size).
Qed.

Lemma sample_negative_not_bank_not_found :
  ¬ BankNotFoundError (ValueError sample_negative_msg).
Proof.
  intros (bank_name & Hmsg). unfold ExamGenerator.not_found_msg in Hmsg.
  rewrite append_cons in Hmsg. discriminate Hmsg.
Qed.

(** X5. A negative count is not caught by the capacity check of
    [sample_questions]: the call reaches [random.sample], which raises its
    own [ValueError]. [generate_exam] fails with that error, which is
    neither the capacity error nor the error for an unknown bank, when the
    first entry it cannot serve names a loaded bank with a negative
    count. *)
Theorem negative_count_raises_in_random_sample self served bank_name count rest
    bank version w latex w0 :
  ExamGenerator._generate_preamble self version w = (Ok latex, w0) →
  Forall (servable self) served →
  ExamGenerator.banks self !! bank_name = Some bank →
  (count < 0)%Z →
  QuestionBank.sample_questions bank count w
  = (Raise (ValueError sample_negative_msg), w)
  ∧ (∃ w',
       ExamGenerator.generate_exam self
         (served ++ (bank_name, count) :: rest) version w
       = (Raise (ValueError sample_negative_msg), w'))
  ∧ ¬ CapacityError (ValueError sample_negative_msg)
  ∧ ¬ BankNotFoundError (ValueError sample_negative_msg).
Proof.
  intros Hpre Hserved Hbank Hcount.
  assert (∀ w1, QuestionBank.sample_questions bank count w1
                = (Raise (ValueError sample_negative_msg), w1)) as Hsample.
  { intros w1. unfold QuestionBank.sample_questions.
    rewrite decide_False by lia. unfold with_random.
    rewrite random_sample_out_of_range by lia. by destruct w1. }
  split; [apply Hsample|]. split.
  - destruct (sampling_served self served [] w0 Hserved) as (acc & g1 & Hloop).
    eexists. rewrite generate_exam_unfold, Hpre, for_each_app, Hloop.
    cbn [for_each]. unfold mbind, M_bind.
    rewrite (sample_selection_present _ _ _ _ _ _ Hbank).
    by rewrite Hsample.
  - split; [apply sample_negative_not_capacity
           |apply sample_negative_not_bank_not_found].
Qed.
End sampling_more.

(** ** QuestionBank: what loading builds *)

Section loading_more.
Context `{RandomSource rng}.
Context (yaml_safe_load : string → option (parsed QuestionBank.dict)).
Implicit Types (w : world rng) (r : Question.record) (self : ExamGenerator.t).

Lemma Question_init_built {S} r (s s' : S) q :
  Question.__init__ r s = (Ok q, s') → built_from r q ∧ s' = s.
Proof.
  destruct r as [r|ty]; [|done].
  unfold Question.__init__.
  destruct r as [[text|] points [type|] [choices|] [correct|] id]; simpl; try done.
  intros [= <- <-]. by repeat split.
Qed.

Lemma first_missing_key_raises {S} r key (s : S) :
  first_missing_key r = Some key →
  Question.__init__ r s = (Raise (KeyError key), s).
Proof.
  destruct r as [r|ty]; [|done].
  unfold first_missing_key, Question.__init__.
  destruct r as [[text|] points [type|] [choices|] [correct|] id]; simpl;
    by intros [= <-].
Qed.

Lemma first_missing_key_lacks r key :
  first_missing_key r = Some key → lacks_required_key r.
Proof.
  destruct r as [r|ty]; [|done].
  unfold first_missing_key, lacks_required_key.
  destruct r as [[text|] points [type|] [choices|] [correct|] id]; simpl;
    try done; tauto.
Qed.

Lemma built_from_valid r q : built_from r q → cache_valid q.
Proof.
  destruct r as [r|ty]; [|done].
  intros (_ & _ & _ & _ & _ & _ & Hnone). unfold cache_valid. by rewrite Hnone.
Qed.

(** The comprehension builds one object per record, in the order of the
    records, at the next free positions of the store. *)
Lemma construct_all_built records : ∀ w,
  Forall (λ r, ¬ lacks_required_key r) records →
  ∃ objs,
    comprehension construct records w
    = (Ok (seq (length (w_objects w)) (length records)),
       set_objects (w_objects w ++ objs) w)
    ∧ Forall2 built_from records objs.
Proof.
  induction records as [|r records IH]; intros w Hall.
  { exists []. split; [|done]. simpl. unfold mret, M_ret.
    rewrite app_nil_r. by destruct w. }
  apply Forall_cons in Hall as [Hr Hall].
  cbn [comprehension]. unfold mbind at 1, M_bind at 1.
  unfold construct at 1. unfold mbind at 1, M_bind at 1.
  destruct (Question_init_cases r w) as [(Hbad & _)|(_ & q & Hq & _)]; [done|].
  rewrite Hq. unfold new at 1.
  destruct (Question_init_built r w w q Hq) as [Hbuilt _].
  destruct (IH (set_objects (w_objects w ++ [q]) w) Hall) as (objs & Hrest & Hobjs).
  unfold mbind at 1, M_bind at 1. rewrite Hrest.
  exists (q :: objs). split; [|by constructor].
  simpl. rewrite length_app. simpl. rewrite Nat.add_1_r.
  unfold mret, M_ret. by rewrite <-app_assoc.
Qed.

(** The comprehension stops at the first record that lacks a key, with the
    objects of the records before it in the store. *)
Lemma construct_all_stops good r key rest : ∀ w,
  Forall (λ r, ¬ lacks_required_key r) good →
  first_missing_key r = Some key →
  ∃ objs,
    comprehension construct (good ++ r :: rest) w
    = (Raise (KeyError key), set_objects (w_objects w ++ objs) w)
    ∧ Forall2 built_from good objs.
Proof.
  induction good as [|r0 good IH]; intros w Hgood Hkey.
  { exists []. split; [|done]. simpl. unfold mbind, M_bind, construct.
    unfold mbind, M_bind. rewrite (first_missing_key_raises r key w Hkey).
    rewrite app_nil_r. by destruct w. }
  apply Forall_cons in Hgood as [Hr Hgood].
  cbn [app comprehension]. unfold mbind at 1, M_bind at 1.
  unfold construct at 1. unfold mbind at 1, M_bind at 1.
  destruct (Question_init_cases r0 w) as [(Hbad & _)|(_ & q & Hq & _)]; [done|].
  rewrite Hq. unfold new at 1.
  destruct (Question_init_built r0 w w q Hq) as [Hbuilt _].
  destruct (IH (set_objects (w_objects w ++ [q]) w) Hgood Hkey) as (objs & Hrest & Hobjs).
  unfold mbind at 1, M_bind at 1. rewrite Hrest.
  exists (q :: objs). split; [|by constructor].
  simpl. by rewrite <-app_assoc.
Qed.

(** X6. A bank file that opens and parses, with a name and a question
    list whose records all have their four keys, loads: the bank has the
    declared name and one question per record, in file order; the
    questions are new objects at the end of the store, built from the
    records with [points] defaulting to 1 and [id] to the empty string and
    no cache; and the objects that were in the store, [random], the files
    and the output are untouched. *)
Theorem load_builds_questions_in_order yaml_file w f data name records :
  w_files w yaml_file = inr f →
  yaml_safe_load f = Some (Dict data) →
  QuestionBank.d_name data = Some name →
  QuestionBank.d_questions data = Some records →
  Forall (λ r, ¬ lacks_required_key r) records →
  ∃ objs,
    QuestionBank.__init__ yaml_safe_load yaml_file w
    = (Ok (QuestionBank.mk name (seq (length (w_objects w)) (length records))),
       set_objects (w_objects w ++ objs) w)
    ∧ Forall2 built_from records objs
    ∧ Forall2 (λ l q, (w_objects w ++ objs) !! l = Some q)
              (seq (length (w_objects w)) (length records)) objs.
Proof.
  intros Hf Hparse Hname Hrecords Hall.
  destruct (construct_all_built records w Hall) as (objs & Hbuild & Hobjs).
  exists objs. split_and!; [|done|].
  - rewrite QuestionBank_init_unfold, Hf, Hparse, Hname, Hrecords. by rewrite Hbuild.
  - apply Forall2_same_length_lookup_2.
    { rewrite length_seq. by apply Forall2_length in Hobjs. }
    intros i l q Hl Hq. apply lookup_seq in Hl as [-> _].
    rewrite lookup_app_r by lia. by replace (length (w_objects w) + i - _) with i by lia.
Qed.

(** X7. When a question record lacks a key, loading raises [KeyError] for
    the first key, in the order [text], [type], [choices],
    [correct_answers], that the first such record lacks; the objects built
    from the records before it stay in the store. *)
Theorem load_raises_first_missing_key yaml_file w f data name good r key rest :
  w_files w yaml_file = inr f →
  yaml_safe_load f = Some (Dict data) →
  QuestionBank.d_name data = Some name →
  QuestionBank.d_questions data = Some (good ++ r :: rest) →
  Forall (λ r, ¬ lacks_required_key r) good →
  first_missing_key r = Some key →
  ∃ objs,
    QuestionBank.__init__ yaml_safe_load yaml_file w
    = (Raise (KeyError key), set_objects (w_objects w ++ objs) w)
    ∧ Forall2 built_from good objs.
Proof.
  intros Hf Hparse Hname Hrecords Hgood Hkey.
  destruct (construct_all_stops good r key rest w Hgood Hkey) as (objs & Hstop & Hobjs).
  exists objs. split; [|done].
  rewrite QuestionBank_init_unfold, Hf, Hparse, Hname, Hrecords. by rewrite Hstop.
Qed.

(** What a successful load has done. *)
Lemma QuestionBank_init_inv yaml_file w bank w' :
  QuestionBank.__init__ yaml_safe_load yaml_file w = (Ok bank, w') →
  ∃ objs,
    w' = set_objects (w_objects w ++ objs) w
    ∧ Forall cache_valid objs
    ∧ QuestionBank.questions bank = seq (length (w_objects w)) (length objs).
Proof.
  rewrite QuestionBank_init_unfold.
  destruct (w_files w yaml_file) as [err|f]; [done|].
  destruct (yaml_safe_load f) as [[data|ty]|]; [|done..].
  destruct (QuestionBank.d_name data) as [name|]; [|done].
  destruct (QuestionBank.d_questions data) as [records|]; [|done].
  destruct (decide (Exists lacks_required_key records)) as [Hbad|Hgood].
  { destruct (construct_all_fails records w Hbad) as (key & w1 & ->). done. }
  apply not_Exists_Forall in Hgood; [|intros r; apply _].
  destruct (construct_all_built records w Hgood) as (objs & -> & Hobjs).
  intros [= <- <-]. exists objs. split_and!; [done| |].
  - apply Forall_forall. intros q [i Hq]%list_elem_of_lookup_1.
    destruct (Forall2_lookup_r _ _ _ _ _ Hobjs Hq) as (r & _ & Hbuilt).
    by eapply built_from_valid.
  - simpl. by rewrite (Forall2_length _ _ _ Hobjs).
Qed.

(** A generator that is given a bank made of new objects stays in order. *)
Lemma store_ok_insert self w name bank preamble_file (objs : list Question.t) :
  store_ok self w →
  Forall cache_valid objs →
  QuestionBank.questions bank = seq (length (w_objects w)) (length objs) →
  store_ok (ExamGenerator.mk (<[name := bank]> (ExamGenerator.banks self)) preamble_file)
           (set_objects (w_objects w ++ objs) w).
Proof.
  intros [Hvalid Hrefs] Hobjs Hqs. split; simpl.
  - by apply Forall_app.
  - intros name' bank'. rewrite lookup_insert. case_decide.
    + intros [= <-]. rewrite Hqs. apply Forall_forall.
      intros l Hl%elem_of_seq. rewrite length_app. lia.
    + intros Hb. eapply Forall_impl; [by eapply Hrefs|].
      simpl. intros l Hl. rewrite length_app. lia.
Qed.

(** X8. [add_bank] stores the loaded bank under its declared name,
    replacing a bank that was stored under that name; the other entries
    and the preamble file stay; when loading raises, [add_bank] raises the
    same error. A generator whose references all denote valid objects
    stays so. *)
Theorem add_bank_inserts_under_name self yaml_file w :
  match QuestionBank.__init__ yaml_safe_load yaml_file w with
  | (Ok bank, w') =>
      ∃ self',
        ExamGenerator.add_bank yaml_safe_load self yaml_file w = (Ok self', w')
        ∧ ExamGenerator.banks self' !! QuestionBank.name bank = Some bank
        ∧ (∀ other, other ≠ QuestionBank.name bank →
             ExamGenerator.banks self' !! other = ExamGenerator.banks self !! other)
        ∧ ExamGenerator.preamble_file self' = ExamGenerator.preamble_file self
        ∧ (store_ok self w → store_ok self' w')
  | (Raise e, w') =>
      ExamGenerator.add_bank yaml_safe_load self yaml_file w = (Raise e, w')
  | (Stuck, w') =>
      ExamGenerator.add_bank yaml_safe_load self yaml_file w = (Stuck, w')
  end.
Proof.
  unfold ExamGenerator.add_bank, mbind, M_bind.
  destruct (QuestionBank.__init__ yaml_safe_load yaml_file w)
    as [[bank|e|] w'] eqn:Hload; [|done..].
  eexists. split; [done|]. simpl. split_and!.
  - by rewrite lookup_insert_eq.
  - intros other Hne. by rewrite lookup_insert_ne.
  - done.
  - intros Hok.
    destruct (QuestionBank_init_inv _ _ _ _ Hload) as (objs & -> & Hobjs & Hqs).
    by apply store_ok_insert.
Qed.
End loading_more.

(** ** ExamGenerator: the preamble without a readable file *)

Section preamble_more.
Context {rng : Type}.
Implicit Types (self : ExamGenerator.t) (w : world rng).

(** X9. Without a custom preamble file ([None] or the empty string) the
    default preamble is returned and nothing else happens. When the file
    does not exist, one warning line is printed and the default preamble
    is returned: no error. Any other failure to open the file is not
    handled: the [OSError] propagates and nothing is printed. *)
Theorem preamble_fallbacks self version w :
  (ExamGenerator.preamble_file self = None
   ∨ ExamGenerator.preamble_file self = Some "" →
   ExamGenerator._generate_preamble self version w
   = (Ok (ExamGenerator.default_preamble version), w))
  ∧ (∀ path,
       ExamGenerator.preamble_file self = Some path → path ≠ "" →
       w_files w path = inl ENOENT →
       ExamGenerator._generate_preamble self version w
       = (Ok (ExamGenerator.default_preamble version),
          mk_world (w_random w) (w_objects w) (w_files w)
                   (w_stdout w ++ [ExamGenerator.warning_msg path])))
  ∧ (∀ path err,
       ExamGenerator.preamble_file self = Some path → path ≠ "" →
       w_files w path = inl err → err ≠ ENOENT →
       ExamGenerator._generate_preamble self version w
       = (Raise (OSError err path), w)).
Proof.
  split_and!.
  - intros [Hnone|Hempty]; unfold ExamGenerator._generate_preamble;
      [by rewrite Hnone|by rewrite Hempty].
  - intros path Hpath Hne Hfile.
    unfold ExamGenerator._generate_preamble. rewrite Hpath.
    destruct path as [|c path]; [done|]. simpl.
    unfold try_except_FileNotFoundError, read_file, mbind, M_bind.
    by rewrite Hfile.
  - intros path err Hpath Hne Hfile Herr.
    unfold ExamGenerator._generate_preamble. rewrite Hpath.
    destruct path as [|c path]; [done|]. simpl.
    unfold try_except_FileNotFoundError, read_file, mbind, M_bind.
    rewrite Hfile. by destruct err.
Qed.

(** The preamble leaves [random], the objects and the files alone. *)
Lemma generate_preamble_frame self version w r w0 :
  ExamGenerator._generate_preamble self version w = (r, w0) →
  w_random w0 = w_random w ∧ w_objects w0 = w_objects w ∧ w_files w0 = w_files w.
Proof.
  unfold ExamGenerator._generate_preamble.
  destruct (ExamGenerator.truthy _) as [path|]; [|by intros [= <- <-]].
  unfold try_except_FileNotFoundError, read_file, mbind, M_bind.
  destruct (w_files w path) as [[]|template]; by intros [= <- <-].
Qed.
End preamble_more.

(** ** ExamGenerator: rendering the sampled questions *)

Section rendering_in_the_store.
Context `{RandomSource rng}.
Implicit Types (self : ExamGenerator.t) (w : world rng) (q : Question.t) (l : nat).

Lemma same_question_trans q1 q2 q3 :
  same_question q1 q2 → same_question q2 q3 → same_question q1 q3.
Proof.
  intros [H12 K12] [H23 K23]. split; [|by auto].
  rewrite H23. rewrite H12. done.
Qed.

Lemma Forall2_same_question_refl (objects : list Question.t) :
  Forall2 same_question objects objects.
Proof. apply Forall2_same_length_lookup_2; [done|]. intros i q q' Hq Hq'.
  simplify_eq. apply same_question_refl. Qed.

Lemma Forall2_same_question_trans (h1 h2 h3 : list Question.t) :
  Forall2 same_question h1 h2 → Forall2 same_question h2 h3 →
  Forall2 same_question h1 h3.
Proof.
  intros H12 H23. apply Forall2_same_length_lookup_2.
  { by rewrite (Forall2_length _ _ _ H12), (Forall2_length _ _ _ H23). }
  intros i q1 q3 Hq1 Hq3.
  destruct (Forall2_lookup_l _ _ _ _ _ H12 Hq1) as (q2 & Hq2 & Hs12).
  destruct (Forall2_lookup_l _ _ _ _ _ H23 Hq2) as (q3' & Hq3' & Hs23).
  simplify_eq. by eapply same_question_trans.
Qed.

Lemma Forall2_same_question_insert (objects : list Question.t) (l : nat) q q' :
  objects !! l = Some q → same_question q q' →
  Forall2 same_question objects (<[l := q']> objects).
Proof.
  intros Hl Hsame. apply Forall2_same_length_lookup_2.
  { by rewrite length_insert. }
  intros i q1 q2 Hq1 Hq2. destruct (decide (i = l)) as [->|Hne].
  - rewrite list_lookup_insert_eq in Hq2 by (by eapply lookup_lt_Some).
    rewrite Hl in Hq1. injection Hq1 as <-. injection Hq2 as <-. exact Hsame.
  - rewrite list_lookup_insert_ne in Hq2 by done.
    rewrite Hq1 in Hq2. injection Hq2 as <-. apply same_question_refl.
Qed.

(** The block of an object is settled once its cache is set. *)
Lemma block_of_settled (h h' : list Question.t) l q indices :
  Forall2 same_question h h' →
  h !! l = Some q → Question._shuffled_indices q = Some indices →
  block_of h' l = rendering q indices.
Proof.
  intros Hh Hl Hcache.
  destruct (Forall2_lookup_l _ _ _ _ _ Hh Hl) as (q' & Hq' & Hfields & Hkeep).
  unfold block_of, loc. rewrite Hq', (Hkeep indices Hcache).
  rewrite Hfields. apply rendering_set_shuffled_indices.
Qed.

Lemma call_to_latex_spec l q w :
  w_objects w !! l = Some q → cache_valid q →
  ∃ indices g',
    call l (Question.to_latex true) w
    = (Ok (rendering q indices),
       set_random g'
         (set_objects (<[l := Question.set_shuffled_indices (Some indices) q]>
                         (w_objects w)) w))
    ∧ indices ≡ₚ seq 0 (length (Question.choices q))
    ∧ (∀ cached, Question._shuffled_indices q = Some cached → cached = indices).
Proof.
  intros Hl Hvalid.
  destruct (to_latex_shuffled_spec q (w_random w) Hvalid)
    as (indices & g' & Hlatex & Hperm & Hsame).
  exists indices, g'. split; [|split; [done|]].
  - unfold call, loc. by rewrite Hl, Hlatex.
  - intros cached Hc. by destruct (Hsame cached Hc).
Qed.

(** The loop over [all_questions]: every question is rendered, the text
    grows by one block and a newline per question, and each block is the
    one the final store gives for the object. *)
Lemma render_all (ls : list loc) : ∀ latex w,
  Forall cache_valid (w_objects w) →
  Forall (λ l, l < length (w_objects w)) ls →
  ∃ w',
    for_each ls ExamGenerator.render_question latex w
    = (Ok (latex +:+ lines ((λ l, block_of (w_objects w') l +:+ nl) <$> ls)), w')
    ∧ Forall2 same_question (w_objects w) (w_objects w')
    ∧ Forall cache_valid (w_objects w')
    ∧ w_files w' = w_files w
    ∧ w_stdout w' = w_stdout w
    ∧ Forall (λ l, ∃ q, w_objects w' !! l = Some q
                        ∧ cache_state_of q = SHUFFLED) ls.
Proof.
  induction ls as [|l ls IH]; intros latex w Hvalid Hrefs.
  { exists w. split_and!; try done.
    - simpl. unfold mret, M_ret. by rewrite append_nil_r.
    - apply Forall2_same_question_refl. }
  apply Forall_cons in Hrefs as [Hl Hrefs].
  destruct (lookup_lt_is_Some_2 (w_objects w) l Hl) as [q Hq].
  assert (cache_valid q) as Hqvalid by (by eapply Forall_lookup_1).
  destruct (call_to_latex_spec l q w Hq Hqvalid) as (indices & g' & Hcall & Hperm & Hsame).
  set (q1 := Question.set_shuffled_indices (Some indices) q) in *.
  match type of Hcall with _ = (_, ?x) => remember x as w1 eqn:Hw1 end.
  assert (w_objects w1 = <[l := q1]> (w_objects w)) as Hobjects1 by (by subst w1).
  assert (w_files w1 = w_files w ∧ w_stdout w1 = w_stdout w) as [Hfiles1 Hstdout1]
    by (by subst w1).
  clear Hw1.
  assert (Forall cache_valid (w_objects w1)) as Hvalid1.
  { rewrite Hobjects1. by apply Forall_insert. }
  assert (Forall (λ l, l < length (w_objects w1)) ls) as Hrefs1.
  { by rewrite Hobjects1, length_insert. }
  destruct (IH (latex +:+ rendering q indices +:+ nl) w1 Hvalid1 Hrefs1)
    as (w' & Hloop & Hh & Hvalid' & Hfiles & Hstdout & Hshuffled).
  assert (w_objects w1 !! l = Some q1) as Hq1.
  { rewrite Hobjects1. by rewrite list_lookup_insert_eq. }
  assert (block_of (w_objects w') l = rendering q indices) as Hblock.
  { by rewrite (block_of_settled _ _ l q1 indices Hh Hq1). }
  exists w'. split_and!; try done.
  - cbn [for_each]. unfold mbind at 1, M_bind at 1.
    unfold ExamGenerator.render_question at 1. unfold mbind at 1, M_bind at 1.
    rewrite Hcall. unfold mret at 1, M_ret at 1. rewrite Hloop.
    do 2 f_equal. rewrite fmap_cons.
    change (lines (?x :: ?xs)) with (x +:+ lines xs).
    rewrite Hblock. by rewrite !append_assoc.
  - eapply Forall2_same_question_trans; [|exact Hh].
    rewrite Hobjects1. apply (Forall2_same_question_insert _ l q q1 Hq).
    split; [done|]. intros cached Hc. simpl. by rewrite (Hsame cached Hc).
  - congruence.
  - congruence.
  - apply Forall_cons. split; [|done].
    destruct (Forall2_lookup_l _ _ _ _ _ Hh Hq1) as (q' & Hq' & _ & Hkeep).
    exists q'. split; [done|]. unfold cache_state_of.
    by rewrite (Hkeep indices eq_refl).
Qed.
End rendering_in_the_store.

(** ** ExamGenerator: the document *)

Section documents.
Context `{RandomSource rng}.
Implicit Types (self : ExamGenerator.t) (w : world rng) (l : nat).

Lemma sample_selection_sampled self acc selection w :
  servable self selection →
  ∃ questions g',
    ExamGenerator.sample_selection self acc selection w
    = (Ok (acc ++ questions), set_random g' w)
    ∧ sampled_for self selection questions.
Proof.
  destruct selection as [bank_name count]. intros (bank & Hbank & Hcount).
  simpl in *.
  pose proof (sample_selection_present self acc bank_name count bank w Hbank) as Hsel.
  unfold QuestionBank.sample_questions in Hsel.
  rewrite decide_False in Hsel by lia. unfold with_random in Hsel.
  destruct (random_sample_in_range _ count (w_random w) Hcount)
    as (positions & sampled & g' & Hs & Hlen & Hnodup & Hpick).
  rewrite Hs in Hsel. exists sampled, g'. split; [done|].
  exists bank. split_and!; [done| | |].
  - simpl. by rewrite <-(Forall2_length _ _ _ Hpick).
  - exact (picked_subseteq _ _ _ Hpick).
  - intros Hbanknd. exact (picked_NoDup _ _ _ Hbanknd Hnodup Hpick).
Qed.

Lemma sampling_served_groups self selections : ∀ acc w,
  Forall (servable self) selections →
  ∃ groups g',
    for_each selections (ExamGenerator.sample_selection self) acc w
    = (Ok (acc ++ concat groups), set_random g' w)
    ∧ Forall2 (sampled_for self) selections groups.
Proof.
  induction selections as [|selection selections IH]; intros acc w Hall.
  { exists [], (w_random w). split; [|done]. simpl. rewrite app_nil_r.
    by destruct w. }
  apply Forall_cons in Hall as [Hfirst Hall].
  destruct (sample_selection_sampled self acc selection w Hfirst)
    as (questions & g1 & Hsel & Hsampled).
  destruct (IH (acc ++ questions) (set_random g1 w) Hall)
    as (groups & g' & Hrest & Hgroups).
  exists (questions :: groups), g'. split; [|by constructor].
  cbn [for_each]. unfold mbind, M_bind. rewrite Hsel, Hrest.
  simpl. by rewrite <-app_assoc.
Qed.

Lemma sampled_for_length self selections groups :
  Forall2 (sampled_for self) selections groups →
  length (concat groups) = sum_list ((λ selection, Z.to_nat selection.2) <$> selections).
Proof.
  induction 1 as [|selection questions selections groups (bank & _ & Hlen & _) _ IH];
    [done|].
  simpl. rewrite length_app. by rewrite Hlen, IH.
Qed.

Lemma sampled_for_refs self selections groups w :
  store_ok self w →
  Forall2 (sampled_for self) selections groups →
  Forall (λ l, l < length (w_objects w)) (concat groups).
Proof.
  intros [_ Hrefs].
  induction 1 as [|selection questions selections groups
                   (bank & Hbank & _ & Hsub & _) _ IH]; [done|].
  simpl. apply Forall_app. split; [|done].
  apply Forall_forall. intros l Hl%Hsub.
  pose proof (Hrefs _ _ Hbank) as Hbankrefs.
  by eapply Forall_forall in Hbankrefs.
Qed.

Lemma store_ok_same self w w' :
  store_ok self w →
  Forall2 same_question (w_objects w) (w_objects w') →
  Forall cache_valid (w_objects w') →
  store_ok self w'.
Proof.
  intros [_ Hrefs] Hh Hvalid. split; [done|].
  intros name bank Hbank. rewrite <-(Forall2_length _ _ _ Hh). by eapply Hrefs.
Qed.

Lemma generate_preamble_available self version w :
  preamble_available self w →
  ∃ latex w0, ExamGenerator._generate_preamble self version w = (Ok latex, w0).
Proof.
  intros Havail. rewrite generate_preamble_unfold.
  destruct (ExamGenerator.truthy _) as [path|] eqn:Hpath; [|by eexists _, _].
  destruct (w_files w path) as [err|template] eqn:Hfile; [|by eexists _, _].
  rewrite (Havail path err Hpath Hfile). by eexists _, _.
Qed.

(** What a call of [generate_exam] that has its preamble and can serve
    every entry does. *)
Lemma generate_exam_spec self selections version w latex w0 :
  ExamGenerator._generate_preamble self version w = (Ok latex, w0) →
  Forall (servable self) selections →
  store_ok self w →
  ∃ groups w',
    ExamGenerator.generate_exam self selections version w
    = (Ok (document latex (block_of (w_objects w') <$> concat groups)), w')
    ∧ Forall2 (sampled_for self) selections groups
    ∧ Forall2 same_question (w_objects w) (w_objects w')
    ∧ Forall cache_valid (w_objects w')
    ∧ w_files w' = w_files w
    ∧ w_stdout w' = w_stdout w0
    ∧ Forall (λ l, ∃ q, w_objects w' !! l = Some q
                        ∧ cache_state_of q = SHUFFLED) (concat groups).
Proof.
  intros Hpre Hserved Hok.
  destruct (generate_preamble_frame self version w _ w0 Hpre) as (_ & Hobj0 & Hfiles0).
  destruct (sampling_served_groups self selections [] w0 Hserved)
    as (groups & g1 & Hloop & Hgroups).
  pose proof (sampled_for_refs self selections groups w Hok Hgroups) as Hrefs.
  destruct Hok as [Hvalid Hbanks].
  destruct (render_all (concat groups)
              (latex +:+ "\begin{questions}" +:+ nl) (set_random g1 w0))
    as (w' & Hrender & Hh & Hvalid' & Hfiles & Hstdout & Hshuffled).
  { simpl. by rewrite Hobj0. }
  { simpl. by rewrite Hobj0. }
  exists groups, w'. simpl in *. rewrite Hobj0 in Hh.
  split_and!; try done; [|congruence].
  rewrite generate_exam_unfold, Hpre, Hloop. simpl. rewrite Hrender.
  do 2 f_equal. unfold document. rewrite <-list_fmap_compose.
  by rewrite !append_assoc.
Qed.

(** X10. When the preamble is generated, every selections entry names a
    loaded bank with a count between 0 and its size, and the references of
    the banks denote valid objects, [generate_exam] returns the document:
    the preamble, the opening of the question section, one block and one
    newline per sampled question, in the order of the selections, and the
    two closing lines. There are as many blocks as the counts add up to;
    the call changes the state of [random] and the caches of the
    questions, and neither their fields nor the files. *)
Theorem generate_exam_returns_document self selections version w latex w0 :
  ExamGenerator._generate_preamble self version w = (Ok latex, w0) →
  Forall (servable self) selections →
  store_ok self w →
  ∃ groups w',
    ExamGenerator.generate_exam self selections version w
    = (Ok (document latex (block_of (w_objects w') <$> concat groups)), w')
    ∧ Forall2 (sampled_for self) selections groups
    ∧ length (concat groups)
      = sum_list ((λ selection, Z.to_nat selection.2) <$> selections)
    ∧ Forall2 same_question (w_objects w) (w_objects w')
    ∧ store_ok self w'
    ∧ w_files w' = w_files w
    ∧ w_stdout w' = w_stdout w0.
Proof.
  intros Hpre Hserved Hok.
  destruct (generate_exam_spec self selections version w latex w0 Hpre Hserved Hok)
    as (groups & w' & Hgen & Hgroups & Hh & Hvalid & Hfiles & Hstdout & _).
  exists groups, w'. split_and!; try done.
  - by eapply sampled_for_length.
  - by eapply store_ok_same.
Qed.

(** X11. The shuffle of a question outlives the call: when two versions
    are generated one after the other from the same generator, both calls
    return their document, and the blocks of both are those the store
    gives after the second call. A question that is in both versions has
    the same block, with the same order of choices, in both. *)
Theorem versions_share_question_blocks self selections1 selections2
    version1 version2 w :
  preamble_available self w →
  Forall (servable self) selections1 →
  Forall (servable self) selections2 →
  store_ok self w →
  ∃ latex1 latex2 groups1 groups2 w1 w2,
    ExamGenerator.generate_exam self selections1 version1 w
    = (Ok (document latex1 (block_of (w_objects w2) <$> concat groups1)), w1)
    ∧ ExamGenerator.generate_exam self selections2 version2 w1
      = (Ok (document latex2 (block_of (w_objects w2) <$> concat groups2)), w2)
    ∧ Forall2 (sampled_for self) selections1 groups1
    ∧ Forall2 (sampled_for self) selections2 groups2.
Proof.
  intros Havail Hserved1 Hserved2 Hok.
  destruct (generate_preamble_available self version1 w Havail) as (latex1 & w0 & Hpre1).
  destruct (generate_exam_spec self selections1 version1 w latex1 w0 Hpre1 Hserved1 Hok)
    as (groups1 & w1 & Hgen1 & Hgroups1 & Hh1 & Hvalid1 & Hfiles1 & _ & Hshuffled1).
  assert (preamble_available self w1) as Havail1.
  { unfold preamble_available. rewrite Hfiles1. exact Havail. }
  assert (store_ok self w1) as Hok1 by (by eapply store_ok_same).
  destruct (generate_preamble_available self version2 w1 Havail1) as (latex2 & w0' & Hpre2).
  destruct (generate_exam_spec self selections2 version2 w1 latex2 w0' Hpre2 Hserved2 Hok1)
    as (groups2 & w2 & Hgen2 & Hgroups2 & Hh2 & _).
  exists latex1, latex2, groups1, groups2, w1, w2. split_and!; try done.
  rewrite Hgen1. do 3 f_equal.
  apply Forall_fmap_ext_1. eapply Forall_impl; [exact Hshuffled1|].
  intros l (q & Hq & Hstate). simpl in Hstate.
  unfold cache_state_of in Hstate.
  destruct (Question._shuffled_indices q) as [indices|] eqn:Hcache; [|done].
  rewrite (block_of_settled _ _ l q indices Hh2 Hq Hcache).
  unfold block_of, loc. by rewrite Hq, Hcache.
Qed.

(** X12. With no selections [generate_exam] samples and renders nothing:
    when the preamble is generated the document is the preamble followed
    by an empty question section, and a failing preamble is the only
    error. *)
Theorem generate_exam_without_selections self version w :
  ExamGenerator.generate_exam self [] version w
  = match ExamGenerator._generate_preamble self version w with
    | (Ok latex, w0) => (Ok (document latex []), w0)
    | (Raise e, w0) => (Raise e, w0)
    | (Stuck, w0) => (Stuck, w0)
    end.
Proof.
  rewrite generate_exam_unfold.
  destruct (ExamGenerator._generate_preamble self version w) as [[latex|e|] w0];
    [|done..].
  simpl. unfold mret, M_ret, document. simpl. by rewrite !append_assoc.
Qed.
End documents.

(** ** The command line driver *)

Section driver_loading.
Context `{RandomSource rng}.
Context (yaml_safe_load : string → option (parsed QuestionBank.dict)).
Implicit Types (w : world rng) (self generator : ExamGenerator.t)
  (written : list (string * string)).

(** Building objects only appends to the store, also when it raises. *)
Lemma construct_all_frame records : ∀ w,
  ∃ objs, (comprehension construct records w).2
          = set_objects (w_objects w ++ objs) w.
Proof.
  induction records as [|r records IH]; intros w.
  { exists []. simpl. rewrite app_nil_r. by destruct w. }
  cbn [comprehension]. unfold mbind at 1, M_bind at 1.
  unfold construct at 1. unfold mbind at 1, M_bind at 1.
  destruct (Question_init_cases r w) as [(_ & e & -> & _)|(_ & q & -> & _)].
  { exists []. simpl. rewrite app_nil_r. by destruct w. }
  unfold new at 1.
  destruct (IH (set_objects (w_objects w ++ [q]) w)) as (objs & Hrest).
  unfold mbind at 1, M_bind at 1.
  destruct (comprehension construct records _) as [[locs|e|] w'];
    simpl in *; subst w'; exists (q :: objs); by rewrite <-app_assoc.
Qed.

Lemma QuestionBank_init_frame yaml_file w :
  ∃ objs, (QuestionBank.__init__ yaml_safe_load yaml_file w).2
          = set_objects (w_objects w ++ objs) w.
Proof.
  rewrite QuestionBank_init_unfold.
  assert (w = set_objects (w_objects w ++ []) w) as Hsame.
  { rewrite app_nil_r. by destruct w. }
  destruct (w_files w yaml_file) as [err|f]; [by exists []|].
  destruct (yaml_safe_load f) as [[data|ty]|]; [|by exists []..].
  destruct (QuestionBank.d_name data) as [name|]; [|by exists []].
  destruct (QuestionBank.d_questions data) as [records|]; [|by exists []].
  destruct (construct_all_frame records w) as (objs & Hobjs).
  exists objs.
  by destruct (comprehension construct records w) as [[locs|e|] w'].
Qed.

(** What [add_bank] does to the world and keeps of the generator. *)
Lemma add_bank_frame self yaml_file w :
  ∃ objs,
    (ExamGenerator.add_bank yaml_safe_load self yaml_file w).2
    = set_objects (w_objects w ++ objs) w
    ∧ ∀ self', (ExamGenerator.add_bank yaml_safe_load self yaml_file w).1 = Ok self' →
        ExamGenerator.preamble_file self' = ExamGenerator.preamble_file self
        ∧ (store_ok self w → store_ok self' (set_objects (w_objects w ++ objs) w)).
Proof.
  unfold ExamGenerator.add_bank, mbind, M_bind.
  destruct (QuestionBank.__init__ yaml_safe_load yaml_file w)
    as [[bank|e|] w'] eqn:Hload.
  - destruct (QuestionBank_init_inv _ _ _ _ _ Hload) as (objs & -> & Hobjs & Hqs).
    exists objs. split; [done|]. intros self' [= <-]. split; [done|].
    intros Hok. by apply store_ok_insert.
  - destruct (QuestionBank_init_frame yaml_file w) as (objs & Hframe).
    rewrite Hload in Hframe. exists objs. by split.
  - destruct (QuestionBank_init_frame yaml_file w) as (objs & Hframe).
    rewrite Hload in Hframe. exists objs. by split.
Qed.
End driver_loading.

Section driver_props.
Context `{RandomSource rng}.
Context (yaml_safe_load : string → option (parsed QuestionBank.dict)).
Context (yaml_safe_load_config : string → option (parsed Main.config_dict)).
Context (os : Main.os_calls rng).
Implicit Types (w : world rng) (generator : ExamGenerator.t)
  (written : list (string * string)) (a : Main.args) (cfg : Main.config_dict).

(** Loading the banks appends objects to the store and does nothing else
    to the world; it writes no file. *)
Lemma load_all bank_files : ∀ generator w written,
  ∃ objs r,
    for_each bank_files (Main.load_bank yaml_safe_load) generator (w, written)
    = (r, (set_objects (w_objects w ++ objs) w, written))
    ∧ ∀ generator', r = Ok generator' →
        ExamGenerator.preamble_file generator' = ExamGenerator.preamble_file generator
        ∧ (store_ok generator w →
           store_ok generator' (set_objects (w_objects w ++ objs) w)).
Proof.
  induction bank_files as [|bank_file bank_files IH]; intros generator w written.
  { exists [], (Ok generator). split.
    - simpl. unfold mret, M_ret. rewrite app_nil_r. by destruct w.
    - intros ? [= <-]. split; [done|]. rewrite app_nil_r. by destruct w. }
  destruct (add_bank_frame yaml_safe_load generator bank_file w) as (objs1 & Hw1 & Hkeep1).
  cbn [for_each]. unfold mbind at 1, M_bind at 1.
  unfold Main.load_bank at 1, Main.in_world at 1.
  destruct (ExamGenerator.add_bank yaml_safe_load generator bank_file w)
    as [[generator1|e|] w1]; simpl in Hw1; subst w1.
  - destruct (Hkeep1 generator1 eq_refl) as [Hpre1 Hok1].
    destruct (IH generator1 (set_objects (w_objects w ++ objs1) w) written)
      as (objs & r & Hrest & Hkeep).
    exists (objs1 ++ objs), r. simpl in *. rewrite Hrest. split.
    + by rewrite <-app_assoc.
    + intros generator' Hr. destruct (Hkeep generator' Hr) as [Hpre Hok].
      split; [congruence|]. intros Hok0. rewrite app_assoc. by apply Hok, Hok1.
  - exists objs1, (Raise e). by split.
  - exists objs1, Stuck. by split.
Qed.

Lemma main_unfold a w written :
  Main.main yaml_safe_load yaml_safe_load_config os a (w, written)
  = match w_files w (Main.config a) with
    | inl err => (Raise (OSError err (Main.config a)), (w, written))
    | inr f =>
        match yaml_safe_load_config f with
        | None => (Raise YAMLError, (w, written))
        | Some (NotDict ty) =>
            (Raise (TypeError (not_subscriptable ty)), (w, written))
        | Some (Dict cfg) =>
            match Main.c_question_banks cfg with
            | None => (Raise (KeyError "question_banks"), (w, written))
            | Some bank_files =>
                match for_each bank_files (Main.load_bank yaml_safe_load)
                        (ExamGenerator.__init__ (Main.preamble a)) (w, written) with
                | (Ok generator, (w1, written1)) =>
                    match Main.mkdir_exist_ok os (Main.output_dir a) w1 with
                    | Some e => (Raise e, (w1, written1))
                    | None =>
                        for_each (Main.range 1 (Main.versions a + 1))
                          (Main.write_version os a cfg generator) () (w1, written1)
                    end
                | (Raise e, p) => (Raise e, p)
                | (Stuck, p) => (Stuck, p)
                end
            end
        end
    end.
Proof.
  unfold Main.main. unfold mbind at 1, M_bind at 1.
  unfold Main.in_world at 1, read_file.
  destruct (w_files w (Main.config a)) as [err|f]; [done|].
  unfold mbind at 1, M_bind at 1.
  destruct (yaml_safe_load_config f) as [[cfg|ty]|]; [|done..].
  unfold mret at 1, M_ret at 1. unfold mbind at 1, M_bind at 1.
  destruct (Main.c_question_banks cfg) as [bank_files|]; [|done]. simpl.
  unfold mbind at 1, M_bind at 1.
  destruct (for_each bank_files (Main.load_bank yaml_safe_load)
              (ExamGenerator.__init__ (Main.preamble a)) (w, written))
    as [[generator|e|] [w1 written1]]; [|done..].
  unfold mbind at 1, M_bind at 1. unfold Main.mkdir at 1.
  by destruct (Main.mkdir_exist_ok os (Main.output_dir a) w1).
Qed.

Lemma range_empty (start stop : Z) : (stop ≤ start)%Z → Main.range start stop = [].
Proof. intros Hle. unfold Main.range. by replace (Z.to_nat (stop - start)) with 0 by lia. Qed.

Lemma range_cons (start stop : Z) :
  (start < stop)%Z → Main.range start stop = start :: Main.range (start + 1) stop.
Proof.
  intros Hlt. unfold Main.range.
  replace (Z.to_nat (stop - start)) with (S (Z.to_nat (stop - (start + 1)))) by lia.
  cbn [seq fmap list_fmap]. f_equal; [lia|].
  rewrite <-fmap_S_seq, <-list_fmap_compose.
  apply list_fmap_ext. intros _ i _. simpl. lia.
Qed.

Lemma range_split (start k stop : Z) :
  (start ≤ k < stop)%Z →
  Main.range start stop = Main.range start k ++ k :: Main.range (k + 1) stop.
Proof.
  intros Hk. remember (Z.to_nat (k - start)) as n eqn:Hn.
  revert start Hk Hn. induction n as [|n IH]; intros start Hk Hn.
  - assert (k = start) as -> by lia.
    rewrite (range_empty start start) by lia. simpl. apply range_cons. lia.
  - rewrite (range_cons start stop) by lia.
    rewrite (range_cons start k) by lia. simpl. f_equal.
    apply IH; lia.
Qed.

Lemma length_range (start stop : Z) :
  length (Main.range start stop) = Z.to_nat (stop - start).
Proof. unfold Main.range. by rewrite length_fmap, length_seq. Qed.
End driver_props.

Section driver_versions.
Context `{RandomSource rng}.
Context (os : Main.os_calls rng).
Implicit Types (w : world rng) (generator : ExamGenerator.t)
  (written : list (string * string)) (a : Main.args) (cfg : Main.config_dict).

Lemma shuffled_later (h h' : list Question.t) (ls : list nat) :
  Forall2 same_question h h' →
  Forall (λ l, ∃ q, h !! l = Some q ∧ cache_state_of q = SHUFFLED) ls →
  Forall (λ l, ∃ q, h' !! l = Some q ∧ cache_state_of q = SHUFFLED) ls
  ∧ block_of h <$> ls = block_of h' <$> ls.
Proof.
  intros Hh Hls. split.
  - eapply Forall_impl; [exact Hls|]. intros l (q & Hq & Hstate).
    destruct (Forall2_lookup_l _ _ _ _ _ Hh Hq) as (q' & Hq' & _ & Hkeep).
    exists q'. split; [done|]. unfold cache_state_of in *.
    destruct (Question._shuffled_indices q) as [indices|]; [|done].
    by rewrite (Hkeep indices eq_refl).
  - apply Forall_fmap_ext_1. eapply Forall_impl; [exact Hls|].
    intros l (q & Hq & Hstate). simpl. unfold cache_state_of in Hstate.
    destruct (Question._shuffled_indices q) as [indices|] eqn:Hcache; [|done].
    rewrite (block_of_settled _ _ l q indices Hh Hq Hcache).
    unfold block_of, loc. by rewrite Hq, Hcache.
Qed.

Lemma version_entry_later a generator selections (h h' : list Question.t) version entry :
  Forall2 same_question h h' →
  version_entry os a generator selections h version entry →
  version_entry os a generator selections h' version entry.
Proof.
  intros Hh (Hpath & groups & Htext & Hgroups & Hshuffled).
  destruct (shuffled_later h h' (concat groups) Hh Hshuffled) as [Hshuffled' Hblocks].
  split; [done|]. exists groups. split_and!; [|done..].
  by rewrite <-Hblocks.
Qed.

Lemma generate_preamble_default generator version w :
  ExamGenerator.truthy (ExamGenerator.preamble_file generator) = None →
  ExamGenerator._generate_preamble generator version w
  = (Ok (ExamGenerator.default_preamble version), w).
Proof. intros Hnone. unfold ExamGenerator._generate_preamble. by rewrite Hnone. Qed.

(** One turn of the loop over the versions, when the version can be
    generated; the file is written unless opening it fails. *)
Lemma write_version_spec a cfg generator selections version w written :
  Main.c_selections cfg = Some selections →
  ExamGenerator.truthy (ExamGenerator.preamble_file generator) = None →
  Forall (servable generator) selections →
  store_ok generator w →
  ∃ w1 text,
    Forall2 same_question (w_objects w) (w_objects w1)
    ∧ store_ok generator w1
    ∧ version_entry os a generator selections (w_objects w1) version
        (Main.joinpath os (Main.output_dir a) (Main.output_name version), text)
    ∧ Main.write_version os a cfg generator () version (w, written)
      = match Main.open_w os
                (Main.joinpath os (Main.output_dir a) (Main.output_name version)) w1 with
        | Some e => (Raise e, (w1, written))
        | None =>
            (Ok (),
             (mk_world (w_random w1) (w_objects w1)
                (Main.after_write os
                   (Main.joinpath os (Main.output_dir a) (Main.output_name version))
                   text (w_files w1))
                (w_stdout w1),
              written
              ++ [(Main.joinpath os (Main.output_dir a) (Main.output_name version),
                   text)]))
        end.
Proof.
  intros Hsel Hnone Hserved Hok.
  destruct (generate_exam_spec generator selections version w _ w
              (generate_preamble_default generator version w Hnone) Hserved Hok)
    as (groups & w1 & Hgen & Hgroups & Hh & Hvalid & _ & _ & Hshuffled).
  exists w1, (document (ExamGenerator.default_preamble version)
                (block_of (w_objects w1) <$> concat groups)).
  split_and!; [done|by eapply store_ok_same| |].
  - split; [done|]. by exists groups.
  - unfold Main.write_version. rewrite Hsel. unfold mbind at 1, M_bind at 1.
    simpl getkey. unfold mret at 1, M_ret at 1.
    unfold mbind at 1, M_bind at 1. unfold Main.in_world at 1. rewrite Hgen.
    unfold Main.write_file.
    by destruct (Main.open_w os _ w1).
Qed.

(** The loop over versions whose files can all be opened. *)
Lemma write_all a cfg generator selections (versions : list Z) : ∀ w written,
  Main.c_selections cfg = Some selections →
  ExamGenerator.truthy (ExamGenerator.preamble_file generator) = None →
  Forall (servable generator) selections →
  store_ok generator w →
  Forall (λ version, ∀ w',
            Main.open_w os
              (Main.joinpath os (Main.output_dir a) (Main.output_name version)) w'
            = None) versions →
  ∃ entries w',
    for_each versions (Main.write_version os a cfg generator) () (w, written)
    = (Ok (), (w', written ++ entries))
    ∧ Forall2 (version_entry os a generator selections (w_objects w')) versions entries
    ∧ Forall2 same_question (w_objects w) (w_objects w')
    ∧ store_ok generator w'.
Proof.
  induction versions as [|version versions IH];
    intros w written Hsel Hnone Hserved Hok Hopen.
  { exists [], w. rewrite app_nil_r. split_and!; try done.
    apply Forall2_same_question_refl. }
  apply Forall_cons in Hopen as [Hopen1 Hopen].
  destruct (write_version_spec a cfg generator selections version w written
              Hsel Hnone Hserved Hok)
    as (w1 & text & Hh1 & Hok1 & Hentry & Hstep).
  rewrite Hopen1 in Hstep.
  match type of Hstep with _ = (_, (?x, _)) => remember x as w2 eqn:Hw2 end.
  assert (w_objects w2 = w_objects w1) as Hobjects2 by (by subst w2).
  assert (store_ok generator w2) as Hok2.
  { destruct Hok1 as [Hv Hr]. split; rewrite Hobjects2; done. }
  destruct (IH w2 (written ++ [(Main.joinpath os (Main.output_dir a)
                                  (Main.output_name version), text)])
              Hsel Hnone Hserved Hok2 Hopen)
    as (entries & w' & Hrest & Hentries & Hh & Hok').
  rewrite Hobjects2 in Hh.
  eexists (_ :: entries), w'. split_and!.
  - cbn [for_each]. unfold mbind at 1, M_bind at 1. rewrite Hstep, Hrest.
    by rewrite <-app_assoc.
  - constructor; [|done]. by eapply version_entry_later.
  - by eapply Forall2_same_question_trans.
  - done.
Qed.
End driver_versions.

Section driver_theorems.
Context `{RandomSource rng}.
Context (yaml_safe_load : string → option (parsed QuestionBank.dict)).
Context (yaml_safe_load_config : string → option (parsed Main.config_dict)).
Context (os : Main.os_calls rng).
Implicit Types (w : world rng) (generator : ExamGenerator.t)
  (written : list (string * string)) (a : Main.args) (cfg : Main.config_dict).

Lemma store_ok_init preamble_file w :
  Forall cache_valid (w_objects w) →
  store_ok (ExamGenerator.__init__ preamble_file) w.
Proof. intros Hvalid. split; [done|]. intros name bank. simpl. by rewrite lookup_empty. Qed.

(** What the loaded generator is, when the banks load. *)
Lemma loaded_generator a bank_files generator w written w1 written1 :
  Forall cache_valid (w_objects w) →
  for_each bank_files (Main.load_bank yaml_safe_load)
    (ExamGenerator.__init__ (Main.preamble a)) (w, written)
  = (Ok generator, (w1, written1)) →
  written1 = written
  ∧ ExamGenerator.preamble_file generator = Main.preamble a
  ∧ store_ok generator w1.
Proof.
  intros Hvalid Hload.
  destruct (load_all yaml_safe_load bank_files
              (ExamGenerator.__init__ (Main.preamble a)) w written)
    as (objs & r & Hall & Hkeep).
  rewrite Hload in Hall. injection Hall as <- -> <-.
  destruct (Hkeep generator eq_refl) as [Hpre Hok].
  split_and!; [done..|]. by apply Hok, store_ok_init.
Qed.

(** X13. With a version count of zero or less the driver reads the
    configuration, loads the banks and makes the output directory, and
    that is all: it writes no file, does not touch [random] and prints
    nothing, whatever the outcome; and it succeeds when those steps do,
    also when the configuration has no [selections] key, which is only
    looked up inside the loop over the versions. *)
Theorem main_without_versions a w written :
  (Main.versions a ≤ 0)%Z →
  (∃ r objs,
     Main.main yaml_safe_load yaml_safe_load_config os a (w, written)
     = (r, (set_objects (w_objects w ++ objs) w, written)))
  ∧ (∀ f cfg bank_files generator p1,
       w_files w (Main.config a) = inr f →
       yaml_safe_load_config f = Some (Dict cfg) →
       Main.c_question_banks cfg = Some bank_files →
       for_each bank_files (Main.load_bank yaml_safe_load)
         (ExamGenerator.__init__ (Main.preamble a)) (w, written)
       = (Ok generator, p1) →
       Main.mkdir_exist_ok os (Main.output_dir a) p1.1 = None →
       Main.main yaml_safe_load yaml_safe_load_config os a (w, written)
       = (Ok (), p1)).
Proof.
  intros Hversions.
  assert (w = set_objects (w_objects w ++ []) w) as Hsame.
  { rewrite app_nil_r. by destruct w. }
  split.
  - rewrite main_unfold.
    destruct (w_files w (Main.config a)) as [err|f]; [by eexists _, []; rewrite <-Hsame|].
    destruct (yaml_safe_load_config f) as [[cfg|ty]|];
      [|by eexists _, []; rewrite <-Hsame..].
    destruct (Main.c_question_banks cfg) as [bank_files|];
      [|by eexists _, []; rewrite <-Hsame].
    destruct (load_all yaml_safe_load bank_files
                (ExamGenerator.__init__ (Main.preamble a)) w written)
      as (objs & r & -> & _).
    destruct r as [generator|e|]; [|by eexists _, _..].
    destruct (Main.mkdir_exist_ok os _ _); [by eexists _, _|].
    rewrite range_empty by lia. by eexists _, _.
  - intros f cfg bank_files generator [w1 written1] Hf Hcfg Hfiles Hload Hmkdir.
    rewrite main_unfold, Hf, Hcfg, Hfiles, Hload. simpl in Hmkdir. rewrite Hmkdir.
    by rewrite range_empty by lia.
Qed.

(** X14. When the configuration is read, the banks load, the directory is
    made, every selections entry can be served, no custom preamble is
    given and every output file can be opened, the driver writes one file
    per version, for the versions 1, 2, ... in this order: the file of a
    version is the output directory joined with [exam_v<version>.tex] and
    holds the document of that version. The questions of every document
    are shuffled, whatever the [no_shuffle] flag says, and a question has
    the same block in every version it is in. *)
Theorem main_writes_one_file_per_version a w written f cfg bank_files selections
    generator w1 written1 :
  w_files w (Main.config a) = inr f →
  yaml_safe_load_config f = Some (Dict cfg) →
  Main.c_question_banks cfg = Some bank_files →
  Main.c_selections cfg = Some selections →
  ExamGenerator.truthy (Main.preamble a) = None →
  Forall cache_valid (w_objects w) →
  for_each bank_files (Main.load_bank yaml_safe_load)
    (ExamGenerator.__init__ (Main.preamble a)) (w, written)
  = (Ok generator, (w1, written1)) →
  Main.mkdir_exist_ok os (Main.output_dir a) w1 = None →
  Forall (servable generator) selections →
  (∀ path w', Main.open_w os path w' = None) →
  ∃ entries w',
    Main.main yaml_safe_load yaml_safe_load_config os a (w, written)
    = (Ok (), (w', written ++ entries))
    ∧ Forall2 (version_entry os a generator selections (w_objects w'))
              (Main.range 1 (Main.versions a + 1)) entries
    ∧ length entries = Z.to_nat (Main.versions a).
Proof.
  intros Hf Hcfg Hfiles Hsel Hnone Hvalid Hload Hmkdir Hserved Hopen.
  destruct (loaded_generator a bank_files generator w written w1 written1 Hvalid Hload)
    as (-> & Hpre & Hok).
  destruct (write_all os a cfg generator selections
              (Main.range 1 (Main.versions a + 1)) w1 written Hsel)
    as (entries & w' & Hloop & Hentries & _ & _); try done.
  { by rewrite Hpre. }
  { apply Forall_forall. intros version _ w'. apply Hopen. }
  exists entries, w'. split_and!; [|done|].
  - by rewrite main_unfold, Hf, Hcfg, Hfiles, Hload, Hmkdir.
  - rewrite <-(Forall2_length _ _ _ Hentries), length_range. lia.
Qed.

(** X15. A failure does not take back what was written: when the file of
    version [k] cannot be opened, and everything went well up to there,
    the driver raises the error of that [open], and the files of the
    versions 1 to [k - 1] stay written. *)
Theorem main_keeps_earlier_versions a w written f cfg bank_files selections
    generator w1 written1 (k : Z) e :
  w_files w (Main.config a) = inr f →
  yaml_safe_load_config f = Some (Dict cfg) →
  Main.c_question_banks cfg = Some bank_files →
  Main.c_selections cfg = Some selections →
  ExamGenerator.truthy (Main.preamble a) = None →
  Forall cache_valid (w_objects w) →
  for_each bank_files (Main.load_bank yaml_safe_load)
    (ExamGenerator.__init__ (Main.preamble a)) (w, written)
  = (Ok generator, (w1, written1)) →
  Main.mkdir_exist_ok os (Main.output_dir a) w1 = None →
  Forall (servable generator) selections →
  (1 ≤ k ≤ Main.versions a)%Z →
  (∀ version w', (1 ≤ version < k)%Z →
     Main.open_w os
       (Main.joinpath os (Main.output_dir a) (Main.output_name version)) w' = None) →
  (∀ w', Main.open_w os
           (Main.joinpath os (Main.output_dir a) (Main.output_name k)) w' = Some e) →
  ∃ entries w',
    Main.main yaml_safe_load yaml_safe_load_config os a (w, written)
    = (Raise e, (w', written ++ entries))
    ∧ Forall2 (version_entry os a generator selections (w_objects w'))
              (Main.range 1 k) entries
    ∧ length entries = Z.to_nat (k - 1).
Proof.
  intros Hf Hcfg Hfiles Hsel Hnone Hvalid Hload Hmkdir Hserved Hk Hopen Hfail.
  destruct (loaded_generator a bank_files generator w written w1 written1 Hvalid Hload)
    as (-> & Hpre & Hok).
  assert (ExamGenerator.truthy (ExamGenerator.preamble_file generator) = None)
    as Hnone' by (by rewrite Hpre).
  destruct (write_all os a cfg generator selections (Main.range 1 k) w1 written
              Hsel Hnone' Hserved Hok)
    as (entries & w2 & Hloop & Hentries & _ & Hok2).
  { apply Forall_forall. intros version Hv w'. apply Hopen.
    unfold Main.range in Hv. apply list_elem_of_fmap in Hv as (i & -> & Hi).
    apply elem_of_seq in Hi. lia. }
  destruct (write_version_spec os a cfg generator selections k w2 (written ++ entries)
              Hsel Hnone' Hserved Hok2)
    as (w3 & text & Hh3 & _ & _ & Hstep).
  rewrite Hfail in Hstep.
  exists entries, w3. split_and!.
  - rewrite main_unfold, Hf, Hcfg, Hfiles, Hload, Hmkdir.
    rewrite (range_split 1 k (Main.versions a + 1)) by lia.
    rewrite for_each_app, Hloop. cbn [for_each]. unfold mbind, M_bind.
    by rewrite Hstep.
  - eapply Forall2_impl; [exact Hentries|].
    intros version entry. by apply version_entry_later.
  - rewrite <-(Forall2_length _ _ _ Hentries), length_range. lia.
Qed.
End driver_theorems.

(** * The further properties at sample inputs *)

Section more_samples.
Import Run.

Example loaded_final : loaded = (Ok generator, (w_loaded, [])).
Proof. reflexivity. Qed.

(** X2 at the record without [points] and [id]. *)
Lemma constructed_question_witness :
  ∃ q,
    Question.__init__ r_plain () = (Ok q, ())
    ∧ built_from r_plain q
    ∧ ∃ q' g',
        run Sample.later_events (q, Sample.tape) = (Ok (), (q', g'))
        ∧ cache_valid q'.
Proof.
  eexists. split; [reflexivity|].
  apply (constructed_question_never_raises r_plain () () _ Sample.later_events Sample.tape).
  reflexivity.
Defined.

(** X3 at the question with choices A, B, C. *)
Lemma to_latex_settled_witness :
  cache_valid Sample.q_abc
  ∧ ∃ indices q' g',
      Question.to_latex true (Sample.q_abc, Sample.tape)
      = (Ok (rendering Sample.q_abc indices), (q', g'))
      ∧ indices ≡ₚ seq 0 (length (Question.choices Sample.q_abc))
      ∧ (∀ g2, Question.to_latex true (q', g2)
               = (Ok (rendering Sample.q_abc indices), (q', g2)))
      ∧ (∀ g2, Question.to_latex false (q', g2)
               = (Ok (rendering Sample.q_abc
                        (seq 0 (length (Question.choices Sample.q_abc)))), (q', g2))).
Proof.
  split; [exact I|].
  apply (to_latex_settled_by_first_call Sample.q_abc Sample.tape). exact I.
Defined.

(** X5 at a selections entry asking the bank [midterm] for -1 questions. *)
Lemma negative_count_witness :
  ExamGenerator._generate_preamble Sample.generator 1 Sample.w0
  = (Ok "Exam 1 (v1)", Sample.w0)
  ∧ ExamGenerator.banks Sample.generator !! "midterm" = Some Sample.midterm
  ∧ (-1 < 0)%Z
  ∧ QuestionBank.sample_questions Sample.midterm (-1) Sample.w0
    = (Raise (ValueError sample_negative_msg), Sample.w0)
  ∧ (∃ w',
       ExamGenerator.generate_exam Sample.generator
         ([] ++ ("midterm", (-1)%Z) :: []) 1 Sample.w0
       = (Raise (ValueError sample_negative_msg), w'))
  ∧ ¬ CapacityError (ValueError sample_negative_msg)
  ∧ ¬ BankNotFoundError (ValueError sample_negative_msg).
Proof.
  assert (-1 < 0)%Z as Hneg by lia.
  split; [reflexivity|]. split; [reflexivity|]. split; [exact Hneg|].
  apply (negative_count_raises_in_random_sample Sample.generator [] "midterm" (-1) []
           Sample.midterm 1 Sample.w0 "Exam 1 (v1)" Sample.w0);
    [reflexivity|constructor|reflexivity|exact Hneg].
Defined.

(** X6 at the bank file [final.yaml], with two complete records. *)
Lemma load_builds_witness :
  ∃ objs,
    QuestionBank.__init__ parse_bank "final.yaml" w_start
    = (Ok (QuestionBank.mk "final" (seq (length (w_objects w_start)) (length [r_abc; r_plain]))),
       set_objects (w_objects w_start ++ objs) w_start)
    ∧ Forall2 built_from [r_abc; r_plain] objs
    ∧ Forall2 (λ l q, (w_objects w_start ++ objs) !! l = Some q)
              (seq (length (w_objects w_start)) (length [r_abc; r_plain])) objs.
Proof.
  apply (load_builds_questions_in_order parse_bank "final.yaml" w_start "final"
           (QuestionBank.mk_dict (Some "final") (Some [r_abc; r_plain])) "final"
           [r_abc; r_plain]); try reflexivity.
  repeat constructor; unfold lacks_required_key; simpl;
    intros [?|[?|[?|?]]]; discriminate.
Defined.

(** X7 at the bank file [broken.yaml], whose second record lacks [type]
    and [correct_answers]. *)
Lemma load_raises_witness :
  first_missing_key r_no_type = Some "type"
  ∧ ∃ objs,
      QuestionBank.__init__ parse_bank "broken.yaml" w_start
      = (Raise (KeyError "type"), set_objects (w_objects w_start ++ objs) w_start)
      ∧ Forall2 built_from [r_abc] objs.
Proof.
  split; [reflexivity|].
  apply (load_raises_first_missing_key parse_bank "broken.yaml" w_start "broken"
           (QuestionBank.mk_dict (Some "broken") (Some [r_abc; r_no_type; r_plain]))
           "broken" [r_abc] r_no_type "type" [r_plain]); try reflexivity.
  repeat constructor; unfold lacks_required_key; simpl;
    intros [?|[?|[?|?]]]; discriminate.
Defined.
End more_samples.

Section more_samples_in_the_world.
Import Run.

Lemma sample_store_ok : store_ok Sample.generator Sample.w0.
Proof.
  split.
  - repeat (constructor; [exact I|]). constructor.
  - intros name bank Hbank. simpl in Hbank.
    apply lookup_singleton_Some in Hbank as [_ <-].
    simpl. repeat (constructor; [lia|]). constructor.
Defined.

Lemma sample_servable : Forall (servable Sample.generator) [("midterm", 2%Z)].
Proof.
  constructor; [|constructor]. exists Sample.midterm.
  split; [reflexivity|]. simpl. lia.
Defined.

Lemma sample_preamble_available : preamble_available Sample.generator Sample.w0.
Proof.
  intros path err Hpath Hfile. simpl in Hpath. injection Hpath as <-.
  discriminate Hfile.
Defined.

(** X10 at the bank [midterm] of three questions, two of them asked for. *)
Lemma generate_exam_document_witness :
  ExamGenerator._generate_preamble Sample.generator 1 Sample.w0
  = (Ok "Exam 1 (v1)", Sample.w0)
  ∧ Forall (servable Sample.generator) [("midterm", 2%Z)]
  ∧ store_ok Sample.generator Sample.w0
  ∧ ∃ groups w',
      ExamGenerator.generate_exam Sample.generator [("midterm", 2%Z)] 1 Sample.w0
      = (Ok (document "Exam 1 (v1)" (block_of (w_objects w') <$> concat groups)), w')
      ∧ Forall2 (sampled_for Sample.generator) [("midterm", 2%Z)] groups
      ∧ length (concat groups)
        = sum_list ((λ selection, Z.to_nat selection.2) <$> [("midterm", 2%Z)])
      ∧ Forall2 same_question (w_objects Sample.w0) (w_objects w')
      ∧ store_ok Sample.generator w'
      ∧ w_files w' = w_files Sample.w0
      ∧ w_stdout w' = w_stdout Sample.w0.
Proof.
  split; [reflexivity|]. split; [exact sample_servable|].
  split; [exact sample_store_ok|].
  apply (generate_exam_returns_document Sample.generator [("midterm", 2%Z)] 1
           Sample.w0 "Exam 1 (v1)" Sample.w0);
    [reflexivity|exact sample_servable|exact sample_store_ok].
Defined.

(** X11 at two versions drawn from the bank [midterm]. *)
Lemma versions_share_witness :
  preamble_available Sample.generator Sample.w0
  ∧ ∃ latex1 latex2 groups1 groups2 w1 w2,
      ExamGenerator.generate_exam Sample.generator [("midterm", 2%Z)] 1 Sample.w0
      = (Ok (document latex1 (block_of (w_objects w2) <$> concat groups1)), w1)
      ∧ ExamGenerator.generate_exam Sample.generator [("midterm", 2%Z)] 2 w1
        = (Ok (document latex2 (block_of (w_objects w2) <$> concat groups2)), w2)
      ∧ Forall2 (sampled_for Sample.generator) [("midterm", 2%Z)] groups1
      ∧ Forall2 (sampled_for Sample.generator) [("midterm", 2%Z)] groups2.
Proof.
  split; [exact sample_preamble_available|].
  apply (versions_share_question_blocks Sample.generator
           [("midterm", 2%Z)] [("midterm", 2%Z)] 1 2 Sample.w0);
    [exact sample_preamble_available|exact sample_servable|exact sample_servable
    |exact sample_store_ok].
Defined.

Lemma run_servable : Forall (servable generator) [("final", 1%Z)].
Proof.
  constructor; [|constructor]. exists final.
  split; [reflexivity|]. simpl. lia.
Defined.

(** X13 at a run of no version on a configuration without selections. *)
Lemma main_without_versions_witness :
  (Main.versions a_none ≤ 0)%Z
  ∧ Main.main parse_bank parse_config os_ok a_none (w_start, [])
    = (Ok (), (w_loaded, [])).
Proof.
  assert (Main.versions a_none ≤ 0)%Z as Hnone by (simpl; lia).
  split; [exact Hnone|].
  apply (proj2 (main_without_versions parse_bank parse_config os_ok a_none
                  w_start [] Hnone)
           "bare" (Main.mk_config (Some ["final.yaml"]) None) ["final.yaml"]
           generator (w_loaded, [])); reflexivity.
Defined.

(** X14 at a run of two versions with [--no-shuffle]. *)
Lemma main_writes_witness :
  Main.no_shuffle a_two = true
  ∧ ∃ entries w',
      Main.main parse_bank parse_config os_ok a_two (w_start, [])
      = (Ok (), (w', [] ++ entries))
      ∧ Forall2 (version_entry os_ok a_two generator [("final", 1%Z)] (w_objects w'))
                (Main.range 1 (Main.versions a_two + 1)) entries
      ∧ length entries = Z.to_nat (Main.versions a_two).
Proof.
  split; [reflexivity|].
  apply (main_writes_one_file_per_version parse_bank parse_config os_ok a_two
           w_start [] "config"
           (Main.mk_config (Some ["final.yaml"]) (Some [("final", 1%Z)]))
           ["final.yaml"] [("final", 1%Z)] generator w_loaded []);
    try reflexivity; [constructor|exact run_servable].
Defined.

(** X15 at a run of two versions in which the second file cannot be
    opened. *)
Lemma main_keeps_witness :
  (1 ≤ 2 ≤ Main.versions a_two)%Z
  ∧ ∃ entries w',
      Main.main parse_bank parse_config os_locked a_two (w_start, [])
      = (Raise (OSError EACCES "out/exam_v2.tex"), (w', [] ++ entries))
      ∧ Forall2 (version_entry os_locked a_two generator [("final", 1%Z)] (w_objects w'))
                (Main.range 1 2) entries
      ∧ length entries = Z.to_nat (2 - 1).
Proof.
  assert (1 ≤ 2 ≤ Main.versions a_two)%Z as Hk by (simpl; lia).
  split; [exact Hk|].
  apply (main_keeps_earlier_versions parse_bank parse_config os_locked a_two
           w_start [] "config"
           (Main.mk_config (Some ["final.yaml"]) (Some [("final", 1%Z)]))
           ["final.yaml"] [("final", 1%Z)] generator w_loaded [] 2
           (OSError EACCES "out/exam_v2.tex"));
    try reflexivity; [constructor|exact run_servable|exact Hk|].
  intros version w' Hversion. assert (version = 1%Z) as -> by lia. reflexivity.
Defined.

(** The text of the file the two-version run writes first starts with the
    default preamble of version 1. *)
Example first_entry_path :
  ∃ text rest w',
    Main.main parse_bank parse_config os_ok a_two (w_start, [])
    = (Ok (), (w', ("out/exam_v1.tex", text) :: rest))
    ∧ (rest).*1 = ["out/exam_v2.tex"].
Proof. eexists _, _, _. split; [vm_compute; reflexivity|reflexivity]. Qed.
End more_samples_in_the_world.
